(** * aiohttp/pytest_plugin.py: loop pass-through, coroutine test execution
      and the scoped server/client factory fixtures.

    The plugin is stateful glue: fixtures own a Python list (the registry)
    that a nested [go] coroutine appends to and a nested [finalize]
    coroutine pops from.  It is embedded here as state passing with Python
    exceptions: a computation maps a state to a result and a new state, and
    a raised exception keeps the mutations made before it. *)

From stdpp Require Import base gmap strings list.
From Stdlib Require Import ZArith Lia.

Open Scope string_scope.
Open Scope nat_scope.
Open Scope list_scope.

(** ** Python values *)

(** Event loops are compared with [is] in the source: a loop is its identity. *)
Definition loop_id := nat.

Inductive Exn :=
| AssertionError (msg : string)
| TypeError (msg : string)
| KeyError (key : string)
| AttributeError (name : string)
| IndexError (msg : string)
| OSError (errno : nat).

(** [a is b], where [a] is a loop attribute, which may hold [None], and
    [b] is a loop. *)
Definition is_ (a : option loop_id) (b : loop_id) : bool :=
  match a with
  | Some l => Nat.eqb l b
  | None => false
  end.

(** [aiohttp.web.Application]: the plugin only reads [app.loop], which is
    [None] for an application attached to no loop. *)
Record Application := { app_id : nat; app_loop : option loop_id }.

(** [TestServer(app)]: the plugin reads [server.app.loop]. *)
Record TestServer := { server_id : nat; server_app : Application }.

(** A raw request handler is an arbitrary callable object.  The loop it may
    be attached to (say, through the object a bound method belongs to) is
    kept so that statements can speak about it; the plugin never reads it. *)
Record Handler := { handler_id : nat; handler_loop : option loop_id }.

(** [RawTestServer(handler, loop=loop)]: the plugin reads [server._loop]. *)
Record RawTestServer :=
  { raw_id : nat; raw_handler : Handler; raw_loop : option loop_id }.

Inductive PyObj :=
| PyNone
| PyInt (z : Z)
| PyStr (s : string)
| PyLoop (l : loop_id)
| PyApplication (a : Application)
| PyTestServer (s : TestServer)
| PyRawTestServer (r : RawTestServer)
| PyFunction (f : nat).

(** [TestClient(target, **kwargs)]. *)
Record TestClient :=
  { client_id : nat; client_target : PyObj; client_kwargs : gmap string PyObj }.

(** Python truth value, as tested by [if loop:]. *)
Definition truthy (o : PyObj) : bool :=
  match o with
  | PyNone => false
  | PyInt z => negb (z =? 0)%Z
  | PyStr s => negb (String.eqb s "")
  | _ => true
  end.

(** ** Observable events

    Everything the plugin asks of its collaborators (test_utils, the event
    loop, user callables) is recorded, in order, with its outcome. *)
Inductive Event :=
| NewTestServer (s : TestServer)
| NewRawTestServer (r : RawTestServer)
| NewTestClient (c : TestClient)
| StartServer (id : nat) (kwargs : gmap string PyObj) (outcome : option Exn)
| Close (id : nat) (outcome : option Exn)
| Call (f : nat) (args : list PyObj) (kwargs : gmap string PyObj)
       (outcome : Exn + PyObj)
| SetupLoop (l : loop_id)
| TeardownLoop (l : loop_id)
| RunTask (l : loop_id) (testargs : gmap string PyObj) (outcome : option Exn).

(** The behaviour of the collaborators.  Each outcome may depend on the
    whole history, so that a resource may fail to start or to close at one
    moment and not at another. *)
Class Collaborators := {
  start_server_outcome : list Event → nat → gmap string PyObj → option Exn;
  close_outcome : list Event → nat → option Exn;
  call_outcome :
    list Event → nat → list PyObj → gmap string PyObj → Exn + PyObj
}.

(** ** State and the exception monad *)

Record World := { next_id : nat; trace : list Event }.

(** The closure of one fixture instance: its registry list and the world. *)
Record Fixture (R : Type) := { registry : list R; world : World }.
Arguments registry {R} _.
Arguments world {R} _.
Arguments Build_Fixture {R} _ _.

Inductive Result (A : Type) :=
| Return (a : A)
| Raise (e : Exn)
| Diverge.
Arguments Return {A} a.
Arguments Raise {A} e.
Arguments Diverge {A}.

Definition M (S A : Type) : Type := S → Result A * S.

Definition ret {S A} (a : A) : M S A := fun s => (Return a, s).

Definition raise {S A} (e : Exn) : M S A := fun s => (Raise e, s).

Definition diverge {S A} : M S A := fun s => (Diverge, s).

Definition bind {S A B} (m : M S A) (k : A → M S B) : M S B :=
  fun s =>
    match m s with
    | (Return a, s') => k a s'
    | (Raise e, s') => (Raise e, s')
    | (Diverge, s') => (Diverge, s')
    end.

Declare Scope py_scope.
Delimit Scope py_scope with py.
Notation "x <- c1 ;; c2" := (bind c1 (fun x => c2))
  (at level 100, c1 at next level, right associativity) : py_scope.
Notation "c1 ;; c2" := (bind c1 (fun _ => c2))
  (at level 100, right associativity) : py_scope.
Open Scope py_scope.

(** [assert cond, msg] *)
Definition assert_ {S} (cond : bool) (msg : string) : M S unit :=
  if cond then ret tt else raise (AssertionError msg).

(** Run a computation on the world inside a fixture's closure. *)
Definition lift {R A} (m : M World A) : M (Fixture R) A :=
  fun st =>
    let (r, w) := m (world st) in
    (r, {| registry := registry st; world := w |}).

Definition emit (e : Event) : M World unit :=
  fun w => (Return tt, {| next_id := next_id w; trace := trace w ++ [e] |}).

(** A new Python object gets an identity no earlier object has. *)
Definition fresh : M World nat :=
  fun w => (Return (next_id w),
            {| next_id := S (next_id w); trace := trace w |}).

(** ** test_utils, as the plugin uses it *)

Section TestUtils.
Context `{Collaborators}.

(** Modelled from the spec: [TestServer.__init__] of test_utils (not in
    the source tree) only records the application it is given. *)
Definition TestServer_new (app : Application) : M World TestServer :=
  i <- fresh ;;
  let server := {| server_id := i; server_app := app |} in
  emit (NewTestServer server) ;;
  ret server.

(** Modelled from the spec: [RawTestServer.__init__] of test_utils records
    the handler and the loop it is given. *)
Definition RawTestServer_new (handler : Handler) (loop : loop_id)
  : M World RawTestServer :=
  i <- fresh ;;
  let server :=
    {| raw_id := i; raw_handler := handler; raw_loop := Some loop |} in
  emit (NewRawTestServer server) ;;
  ret server.

(** Modelled from the spec: [TestClient.__init__] of test_utils wraps its
    target ("wrap it directly in a client"). *)
Definition TestClient_new (target : PyObj) (kwargs : gmap string PyObj)
  : M World TestClient :=
  i <- fresh ;;
  let client :=
    {| client_id := i; client_target := target; client_kwargs := kwargs |} in
  emit (NewTestClient client) ;;
  ret client.

(** Modelled from the spec: [start_server] of a server or client, called
    with keyword options, is an asynchronous start that may fail with an
    I/O error. *)
Definition start_server (id : nat) (kwargs : gmap string PyObj)
  : M World unit :=
  fun w =>
    let o := start_server_outcome (trace w) id kwargs in
    (match o with None => Return tt | Some e => Raise e end,
     {| next_id := next_id w;
        trace := trace w ++ [StartServer id kwargs o] |}).

(** Modelled from the spec: [close()] of a server or client is an
    asynchronous close that may fail. *)
Definition close (id : nat) : M World unit :=
  fun w =>
    let o := close_outcome (trace w) id in
    (match o with None => Return tt | Some e => Raise e end,
     {| next_id := next_id w; trace := trace w ++ [Close id o] |}).

(** Calling a Python object: only function objects are callable here. *)
Definition call (f : PyObj) (args : list PyObj) (kwargs : gmap string PyObj)
  : M World PyObj :=
  match f with
  | PyFunction n =>
      fun w =>
        let o := call_outcome (trace w) n args kwargs in
        (match o with inl e => Raise e | inr v => Return v end,
         {| next_id := next_id w;
            trace := trace w ++ [Call n args kwargs o] |})
  | _ => raise (TypeError "object is not callable")
  end.

(** Modelled from the spec: [setup_test_loop()] of test_utils creates a
    new event loop. *)
Definition setup_test_loop : M World loop_id :=
  l <- fresh ;;
  emit (SetupLoop l) ;;
  ret l.

(** Modelled from the spec: [teardown_test_loop(loop)] of test_utils
    closes a loop. *)
Definition teardown_test_loop (l : loop_id) : M World unit :=
  emit (TeardownLoop l).
End TestUtils.

(** ** The registry: a Python list owned by the fixture's closure *)

Definition get_registry {R} : M (Fixture R) (list R) :=
  fun st => (Return (registry st), st).

(** [servers.append(x)] *)
Definition append {R} (x : R) : M (Fixture R) unit :=
  fun st =>
    (Return tt, {| registry := registry st ++ [x]; world := world st |}).

(** [servers.pop()]: removes and returns the last item; IndexError on an
    empty list. *)
Definition pop {R} : M (Fixture R) R :=
  fun st =>
    match last (registry st) with
    | Some x =>
        (Return x,
         {| registry := removelast (registry st); world := world st |})
    | None => (Raise (IndexError "pop from empty list"), st)
    end.

(** What [x.close()] is called on: servers and clients alike. *)
Class Closable (R : Type) := resource_id : R → nat.

#[export] Instance TestServer_closable : Closable TestServer := server_id.
#[export] Instance RawTestServer_closable : Closable RawTestServer := raw_id.
#[export] Instance TestClient_closable : Closable TestClient := client_id.

(** The loop the three [finalize] coroutines share, word for word:
    [while servers: yield from servers.pop().close()].  [fuel] bounds the
    number of iterations. *)
Fixpoint drain {R} `{Collaborators} `{Closable R} (fuel : nat)
  : M (Fixture R) unit :=
  match fuel with
  | O => diverge
  | S fuel' =>
      servers <- get_registry ;;
      match servers with
      | [] => ret tt
      | _ :: _ =>
          r <- pop ;;
          lift (close (resource_id r)) ;;
          drain fuel'
      end
  end.

(** The state of a fixture when it yields its factory: [servers = []]. *)
Definition new_fixture {R} (w : World) : Fixture R :=
  {| registry := []; world := w |}.

(** ** test_server *)
Module test_server.
Section WithLoop.
Context `{Collaborators} (loop : loop_id).

Definition go (app : Application) (kwargs : gmap string PyObj)
  : M (Fixture TestServer) TestServer :=
  assert_ (is_ (app_loop app) loop)
    "Application is attached to other event loop" ;;
  server <- lift (TestServer_new app) ;;
  lift (start_server (server_id server) kwargs) ;;
  append server ;;
  ret server.

Definition finalize : M (Fixture TestServer) unit :=
  fun st => drain (S (length (registry st))) st.
End WithLoop.
End test_server.

(** ** raw_test_server *)
Module raw_test_server.
Section WithLoop.
Context `{Collaborators} (loop : loop_id).

Definition go (handler : Handler) (kwargs : gmap string PyObj)
  : M (Fixture RawTestServer) RawTestServer :=
  server <- lift (RawTestServer_new handler loop) ;;
  lift (start_server (raw_id server) kwargs) ;;
  append server ;;
  ret server.

Definition finalize : M (Fixture RawTestServer) unit :=
  fun st => drain (S (length (registry st))) st.
End WithLoop.
End raw_test_server.

(** ** test_client *)
Module test_client.
Section WithLoop.
Context `{Collaborators} (loop : loop_id).

(** [not args] *)
Definition not_ (args : list PyObj) : bool :=
  match args with [] => true | _ :: _ => false end.

Definition go (__param : PyObj) (args : list PyObj)
    (kwargs : gmap string PyObj)
  : M (Fixture TestClient) TestClient :=
  client <-
    match __param with
    | PyApplication a =>
        assert_ (not_ args) "args should be empty" ;;
        assert_ (is_ (app_loop a) loop)
          "Application is attached to other event loop" ;;
        lift (TestClient_new __param kwargs)
    | PyTestServer s =>
        assert_ (not_ args) "args should be empty" ;;
        assert_ (is_ (app_loop (server_app s)) loop)
          "TestServer is attached to other event loop" ;;
        lift (TestClient_new __param kwargs)
    | PyRawTestServer r =>
        assert_ (not_ args) "args should be empty" ;;
        assert_ (is_ (raw_loop r) loop)
          "TestServer is attached to other event loop" ;;
        lift (TestClient_new __param kwargs)
    | _ =>
        __param' <- lift (call __param (PyLoop loop :: args) kwargs) ;;
        lift (TestClient_new __param' ∅)
    end ;;
  lift (start_server (client_id client) ∅) ;;
  append client ;;
  ret client.

Definition finalize : M (Fixture TestClient) unit :=
  fun st => drain (S (length (registry st))) st.
End WithLoop.
End test_client.

(** ** The loop context and the execution hook *)

Section Hook.

(** [with _passthrough_loop_context(loop) as _loop: body].  The generator
    has no try/finally: an exception raised by the body is re-raised at
    the [yield], so the statements after it do not run. *)
Definition _passthrough_loop_context {A} (loop : PyObj)
    (body : PyObj → M World A) : M World A :=
  if truthy loop then
    body loop
  else
    loop' <- setup_test_loop ;;
    r <- body (PyLoop loop') ;;
    teardown_test_loop loop' ;;
    ret r.

(** A collected test item: whether [item.function] is a coroutine
    function, the resolved fixture values, the argument names the
    function declares, and the test function itself: what running its
    coroutine on a loop ends with. *)
Record PyFuncItem := {
  function_is_coroutine : bool;
  funcargs : gmap string PyObj;
  argnames : list string;
  obj : gmap string PyObj → loop_id → list Event → option Exn
}.

(** [{arg: funcargs[arg] for arg in argnames}] *)
Fixpoint dict_comprehension (fa : gmap string PyObj) (names : list string)
    (acc : gmap string PyObj) : M World (gmap string PyObj) :=
  match names with
  | [] => ret acc
  | arg :: names' =>
      match fa !! arg with
      | Some v => dict_comprehension fa names' (<[arg := v]> acc)
      | None => raise (KeyError arg)
      end
  end.

(** [_loop.create_task(coro)]: only a loop has the method. *)
Definition create_task (_loop : PyObj) : M World loop_id :=
  match _loop with
  | PyLoop l => ret l
  | _ => raise (AttributeError "create_task")
  end.

(** [_loop.run_until_complete(task)]: the task's exception is re-raised. *)
Definition run_until_complete (item : PyFuncItem) (l : loop_id)
    (testargs : gmap string PyObj) : M World unit :=
  fun w =>
    let o := obj item testargs l (trace w) in
    (match o with None => Return tt | Some e => Raise e end,
     {| next_id := next_id w; trace := trace w ++ [RunTask l testargs o] |}).

(** The body of the [with] block of the hook. *)
Definition with_body (pyfuncitem : PyFuncItem) (_loop : PyObj)
  : M World unit :=
  testargs <- dict_comprehension (funcargs pyfuncitem)
                (argnames pyfuncitem) ∅ ;;
  task <- create_task _loop ;;
  run_until_complete pyfuncitem task testargs.

(** The hook returns [True] (handled) or falls off its end ([None]). *)
Definition pytest_pyfunc_call (pyfuncitem : PyFuncItem)
  : M World (option bool) :=
  if function_is_coroutine pyfuncitem then
    let existing_loop := default PyNone (funcargs pyfuncitem !! "loop") in
    _passthrough_loop_context existing_loop (with_body pyfuncitem) ;;
    ret (Some true)
  else
    ret None.
End Hook.

(** ** A test body, as far as the fixtures see it

    A test calls a factory some number of times; a call that raises may be
    caught by the test, which then goes on. *)
Fixpoint run_calls {S A} (calls : list (M S A)) (s : S)
  : list (Result A) * S :=
  match calls with
  | [] => ([], s)
  | c :: calls' =>
      let (r, s1) := c s in
      let (rs, s2) := run_calls calls' s1 in
      (r :: rs, s2)
  end.

(** The values of the calls that returned, in call order. *)
Fixpoint successes {A} (rs : list (Result A)) : list A :=
  match rs with
  | [] => []
  | Return a :: rs' => a :: successes rs'
  | _ :: rs' => successes rs'
  end.

(** The resources [close()] was awaited on, in order, whatever the outcome. *)
Fixpoint closed_ids (evs : list Event) : list nat :=
  match evs with
  | [] => []
  | Close i _ :: evs' => i :: closed_ids evs'
  | _ :: evs' => closed_ids evs'
  end.

(** The calls made to user callables, in order: who was called and with
    which positional and keyword arguments. *)
Fixpoint calls_of (evs : list Event)
  : list (nat * list PyObj * gmap string PyObj) :=
  match evs with
  | [] => []
  | Call f args kwargs _ :: evs' => (f, args, kwargs) :: calls_of evs'
  | _ :: evs' => calls_of evs'
  end.

(** The events of closing each of [rs] successfully, in that order. *)
Definition closes_ok {R} `{Closable R} (rs : list R) : list Event :=
  (λ r, Close (resource_id r) None) <$> rs.

(** Identities in a registry are distinct and were all handed out. *)
Definition fixture_wf {R} `{Closable R} (st : Fixture R) : Prop :=
  NoDup (resource_id <$> registry st) ∧
  Forall (λ r, resource_id r < next_id (world st)) (registry st).

(** A pre-built target: forms 1 to 3 of the client factory. *)
Definition prebuilt (target : PyObj) : bool :=
  match target with
  | PyApplication _ | PyTestServer _ | PyRawTestServer _ => true
  | _ => false
  end.

(** ** What is said of a factory call

    One call of a factory appends its resource exactly when the
    resource's start succeeded: a call that returns has appended what it
    returns, a new object, after a start that succeeded and none that
    failed; a call that raises has left the registry alone, no start
    succeeded in it, and if a start failed then the error raised is that
    start's. *)
Definition entry_iff_started {R} `{Closable R} (call : M (Fixture R) R)
  : Prop :=
  ∀ st, ∃ r st' evs,
    call st = (r, st') ∧
    trace (world st') = trace (world st) ++ evs ∧
    match r with
    | Return x =>
        registry st' = registry st ++ [x] ∧
        next_id (world st) ≤ resource_id x < next_id (world st') ∧
        (∃ kw, last evs = Some (StartServer (resource_id x) kw None)) ∧
        (∀ i kw e', StartServer i kw (Some e') ∉ evs)
    | Raise e =>
        registry st' = registry st ∧
        next_id (world st) ≤ next_id (world st') ∧
        (∀ i kw, StartServer i kw None ∉ evs) ∧
        (∀ i kw e', StartServer i kw (Some e') ∈ evs → e' = e)
    | Diverge => False
    end.

(** ** What is said of a fixture: its factory and its teardown

    A fixture is looked at over a whole test: it starts with an empty
    registry, the test calls the factory [go] on each of [calls] in turn,
    and then [finalize] is run. *)

(** As many entries as calls that returned; none once the drain has
    completed, and the drain does end. *)
Definition counts_entries {R Args} (go : Args → M (Fixture R) R)
    (finalize : M (Fixture R) unit) : Prop :=
  ∀ (w : World) (calls : list Args) rs st1 r st2,
    run_calls (go <$> calls) (new_fixture w) = (rs, st1) →
    finalize st1 = (r, st2) →
    length (registry st1) = length (successes rs) ∧
    r ≠ Diverge ∧
    (r = Return tt → length (registry st2) = 0).

(** The registry holds the created resources in creation order, and the
    drain closes them last created first: what it closes is always an
    initial part of the reverse creation order, and all of it when the
    drain completes. *)
Definition closes_in_reverse {R Args} `{Closable R}
    (go : Args → M (Fixture R) R) (finalize : M (Fixture R) unit) : Prop :=
  ∀ (w : World) (calls : list Args) rs st1 r st2,
    run_calls (go <$> calls) (new_fixture w) = (rs, st1) →
    finalize st1 = (r, st2) →
    registry st1 = successes rs ∧
    ∃ evs,
      trace (world st2) = trace (world st1) ++ evs ∧
      closed_ids evs `prefix_of` rev (resource_id <$> successes rs) ∧
      (r = Return tt → closed_ids evs = rev (resource_id <$> successes rs)).

(** ** What is said of a teardown drain *)

(** Each resource is popped before its close is awaited: draining a
    registry that ends with [x] is awaiting the close of [x] in the state
    where [x] is no longer registered, and then draining what is left.
    Hence what a drain closes is, last first, the part of the registry it
    removed, each entry once; and a drain ended by a close that raised
    leaves exactly the entries before the failing one. *)
Definition pops_before_closing {R} `{Collaborators} `{Closable R}
    (finalize : M (Fixture R) unit) : Prop :=
  (∀ l x w,
     finalize {| registry := l ++ [x]; world := w |}
     = (lift (close (resource_id x)) ;; finalize)
         {| registry := l; world := w |}) ∧
  (∀ st r st',
     finalize st = (r, st') →
     ∃ evs kept closed,
       trace (world st') = trace (world st) ++ evs ∧
       registry st = kept ++ closed ∧
       registry st' = kept ∧
       closed_ids evs = rev (resource_id <$> closed) ∧
       (NoDup (resource_id <$> registry st) → NoDup (closed_ids evs)) ∧
       match r with
       | Return _ => kept = []
       | Raise e =>
           ∃ x post,
             closed = x :: post ∧
             last evs = Some (Close (resource_id x) (Some e))
       | Diverge => False
       end).

(** A close that raises ends the drain: the error raised by the drain is
    that close's, the entries created after the failing one were closed
    before it, and the entries created before it are still registered,
    their close never awaited. *)
Definition close_failure_ends_drain {R} `{Closable R}
    (finalize : M (Fixture R) unit) : Prop :=
  ∀ st e st',
    finalize st = (Raise e, st') →
    ∃ pre x post,
      registry st = pre ++ x :: post ∧
      registry st' = pre ∧
      trace (world st')
      = trace (world st) ++ closes_ok (rev post)
          ++ [Close (resource_id x) (Some e)].

(** ** What is said of a test item *)

(** The item is as the test runner hands it over: every argument the
    function declares has a resolved value. *)
Definition resolved (item : PyFuncItem) : Prop :=
  Forall (λ arg, is_Some (funcargs item !! arg)) (argnames item).

(** If the item has a (truthy) ['loop'] value, it is an event loop. *)
Definition loop_arg_is_loop (item : PyFuncItem) : Prop :=
  ∀ v, funcargs item !! "loop" = Some v → truthy v = true →
       ∃ l, v = PyLoop l.

(** The loop the test runs on: the one supplied, else the one the context
    creates in world [w]. *)
Definition active_loop (item : PyFuncItem) (w : World) : loop_id :=
  match default PyNone (funcargs item !! "loop") with
  | PyLoop l => l
  | _ => next_id w
  end.

(** ** Concrete worlds, to run the plugin on *)

(** Collaborators that never fail; a called function returns [None]. *)
Definition all_ok : Collaborators :=
  {| start_server_outcome := λ _ _ _, None;
     close_outcome := λ _ _, None;
     call_outcome := λ _ _ _ _, inr PyNone |}.

(** Collaborators among which the resource with identity [bad] fails to
    close, with [OSError(errno)]. *)
Definition close_fails (bad errno : nat) : Collaborators :=
  {| start_server_outcome := λ _ _ _, None;
     close_outcome :=
       λ _ i, if Nat.eqb i bad then Some (OSError errno) else None;
     call_outcome := λ _ _ _ _, inr PyNone |}.

(** Collaborators among which every start fails, with [OSError(errno)]. *)
Definition start_fails (errno : nat) : Collaborators :=
  {| start_server_outcome := λ _ _ _, Some (OSError errno);
     close_outcome := λ _ _, None;
     call_outcome := λ _ _ _ _, inr PyNone |}.

(** A test on loop 1 that starts a server for each of three applications
    attached to loop 1, run with the given collaborators. *)
Definition three_servers (C : Collaborators)
  : list (Result TestServer) * Fixture TestServer :=
  run_calls
    [test_server.go (H := C) 1 {| app_id := 2; app_loop := Some 1 |} ∅;
     test_server.go (H := C) 1 {| app_id := 3; app_loop := Some 1 |} ∅;
     test_server.go (H := C) 1 {| app_id := 4; app_loop := Some 1 |} ∅]
    {| registry := []; world := {| next_id := 10; trace := [] |} |}.

(** A coroutine test that takes the loop fixture and a port, and passes. *)
Definition test_with_loop : PyFuncItem :=
  {| function_is_coroutine := true;
     funcargs := <["loop" := PyLoop 1]> (<["port" := PyInt 8080]> ∅);
     argnames := ["loop"; "port"];
     obj := λ _ _ _, None |}.

(** A coroutine test that requests no loop and fails an assertion. *)
Definition test_without_loop : PyFuncItem :=
  {| function_is_coroutine := true;
     funcargs := <["port" := PyInt 8080]> ∅;
     argnames := ["port"];
     obj := λ _ _ _, Some (AssertionError "status != 200") |}.

(** A world in which identities 0 to 9 are taken (loops, applications). *)
Definition world0 : World := {| next_id := 10; trace := [] |}.

(** ** The collection hook *)

(** What [pytest_pycollect_makeitem] uses of a collector: its name filter
    and its generator of test items for a named object. *)
Record Collector (Obj Item : Type) := {
  funcnamefilter : string → bool;
  _genfunctions : string → Obj → list Item
}.
Arguments funcnamefilter {Obj Item} _ _.
Arguments _genfunctions {Obj Item} _ _ _.

(** The hook returns the list of the generated items, or falls off its end
    ([None]) and leaves the object to the default collection.
    [iscoroutinefunction] is [asyncio.iscoroutinefunction]. *)
Definition pytest_pycollect_makeitem {Obj Item}
    (iscoroutinefunction : Obj → bool)
    (collector : Collector Obj Item) (name : string) (obj : Obj)
  : option (list Item) :=
  if funcnamefilter collector name && iscoroutinefunction obj then
    Some (_genfunctions collector name obj)
  else
    None.

(** ** More vocabulary for statements *)

(** The loop a pre-built target is attached to, as [test_client.go] reads
    it: [app.loop], [server.app.loop], [raw_server._loop]. *)
Definition target_loop (target : PyObj) : option loop_id :=
  match target with
  | PyApplication a => app_loop a
  | PyTestServer s => app_loop (server_app s)
  | PyRawTestServer r => raw_loop r
  | _ => None
  end.

(** The objects that can be called. *)
Definition callable (o : PyObj) : bool :=
  match o with
  | PyFunction _ => true
  | _ => false
  end.

Definition is_close (e : Event) : bool :=
  match e with
  | Close _ _ => true
  | _ => false
  end.

(** The resources whose start was awaited and raised, in order. *)
Fixpoint failed_starts (evs : list Event) : list nat :=
  match evs with
  | [] => []
  | StartServer i _ (Some _) :: evs' => i :: failed_starts evs'
  | _ :: evs' => failed_starts evs'
  end.

(** The test functions the collector sees: an object and whether it is a
    coroutine function. *)
Record TestFunction := { func_id : nat; func_is_coroutine : bool }.

(** A collector that takes names starting with ["test"] and generates one
    item per function, without fixtures. *)
Definition plain_collector : Collector TestFunction PyFuncItem :=
  {| funcnamefilter := λ name, String.prefix "test" name;
     _genfunctions := λ _ f,
       [{| function_is_coroutine := func_is_coroutine f;
           funcargs := ∅;
           argnames := [];
           obj := λ _ _ _, None |}] |}.

(** A coroutine test that declares a fixture that was not resolved. *)
Definition test_unresolved : PyFuncItem :=
  {| function_is_coroutine := true;
     funcargs := <["port" := PyInt 8080]> ∅;
     argnames := ["port"; "client"];
     obj := λ _ _ _, None |}.

(** A coroutine test whose ['loop'] value is not a loop. *)
Definition test_with_bad_loop : PyFuncItem :=
  {| function_is_coroutine := true;
     funcargs := <["loop" := PyStr "uvloop"]> ∅;
     argnames := ["loop"];
     obj := λ _ _ _, None |}.

(** ** More of what is said of a fixture *)

(** When the close of every registered resource succeeds, the drain
    completes: it closes every entry, last first, and empties the
    registry. *)
Definition drains_fully {R} `{Collaborators} `{Closable R}
    (finalize : M (Fixture R) unit) : Prop :=
  ∀ st,
    (∀ tr r, r ∈ registry st → close_outcome tr (resource_id r) = None) →
    finalize st
    = (Return tt,
       {| registry := [];
          world := {| next_id := next_id (world st);
                      trace := trace (world st)
                                 ++ closes_ok (rev (registry st)) |} |}).

(** A drain does nothing but close: it makes no object, and what it adds
    to the trace are closes, one for each entry it removed. *)
Definition only_closes {R} (finalize : M (Fixture R) unit) : Prop :=
  ∀ st r st',
    finalize st = (r, st') →
    next_id (world st') = next_id (world st) ∧
    ∃ evs,
      trace (world st') = trace (world st) ++ evs ∧
      Forall (λ e, is_close e = true) evs ∧
      length (registry st') + length evs = length (registry st).

(** Over a whole test the registered resources are distinct objects, all
    of them made after the fixture was set up. *)
Definition registers_distinct {R Args} `{Closable R}
    (go : Args → M (Fixture R) R) : Prop :=
  ∀ (w : World) (calls : list Args) rs st1,
    run_calls (go <$> calls) (new_fixture w) = (rs, st1) →
    NoDup (resource_id <$> registry st1) ∧
    Forall (λ r, next_id w ≤ resource_id r < next_id (world st1))
      (registry st1).

(** A factory call closes nothing.  A resource whose start raised in it is
    an object made in that call, and the call registers nothing then; a
    call that returns registers the object it made, after no failed
    start. *)
Definition closes_nothing_starts_new {R} `{Closable R}
    (call : M (Fixture R) R) : Prop :=
  ∀ st, ∃ r st' evs,
    call st = (r, st') ∧
    trace (world st') = trace (world st) ++ evs ∧
    closed_ids evs = [] ∧
    next_id (world st) ≤ next_id (world st') ∧
    Forall (λ i, next_id (world st) ≤ i < next_id (world st'))
      (failed_starts evs) ∧
    match r with
    | Return x =>
        registry st' = registry st ++ [x] ∧
        next_id (world st) ≤ resource_id x < next_id (world st') ∧
        failed_starts evs = []
    | Raise _ => registry st' = registry st
    | Diverge => False
    end.

(** Over a whole test: the factory calls close nothing, the drain starts
    nothing, and a resource whose start raised is neither registered nor
    ever closed by the drain. *)
Definition abandons_failed_starts {R Args} `{Closable R}
    (go : Args → M (Fixture R) R) (finalize : M (Fixture R) unit) : Prop :=
  ∀ (w : World) (calls : list Args) rs st1 r st2,
    run_calls (go <$> calls) (new_fixture w) = (rs, st1) →
    finalize st1 = (r, st2) →
    ∃ evs1 evs2,
      trace (world st1) = trace w ++ evs1 ∧
      trace (world st2) = trace (world st1) ++ evs2 ∧
      closed_ids evs1 = [] ∧
      failed_starts evs2 = [] ∧
      ∀ i, i ∈ failed_starts evs1 →
           (i ∉ resource_id <$> registry st1) ∧ (i ∉ closed_ids evs2).

(** * Properties *)

(** ** The registry list *)

Lemma pop_snoc {R} (l : list R) (x : R) (w : World) :
  pop {| registry := l ++ [x]; world := w |}
  = (Return x, {| registry := l; world := w |}).
Proof.
  unfold pop; cbn [registry world].
  by rewrite last_snoc, removelast_last.
Qed.

Lemma fmap_rev {A B} (f : A → B) (l : list A) : f <$> rev l = rev (f <$> l).
Proof.
  induction l as [|x l IH]; [done|].
  cbn [rev]. by rewrite fmap_app, IH.
Qed.

Lemma closed_ids_app (e1 e2 : list Event) :
  closed_ids (e1 ++ e2) = closed_ids e1 ++ closed_ids e2.
Proof.
  induction e1 as [|e e1 IH]; [done|].
  destruct e; cbn; by rewrite ?IH.
Qed.

Lemma closed_ids_closes_ok {R} `{Closable R} (rs : list R) :
  closed_ids (closes_ok rs) = resource_id <$> rs.
Proof. induction rs as [|r rs IH]; cbn; [done|]. by rewrite <- IH. Qed.

(** ** The drain loop *)

Section Drain.
Context `{Collaborators} {R : Type} `{Closable R}.

(** One iteration on a non-empty registry: the last entry is popped, and
    only then is its close awaited, in the state without it. *)
Lemma drain_step (fuel : nat) (l : list R) (x : R) (w : World) :
  drain (S fuel) {| registry := l ++ [x]; world := w |}
  = (lift (close (resource_id x)) ;; drain fuel)
      {| registry := l; world := w |}.
Proof.
  cbn [drain]. unfold bind at 1. cbn [get_registry registry].
  destruct (l ++ [x]) as [|y l'] eqn:E.
  { by destruct l. }
  rewrite <- E. unfold bind at 1. by rewrite pop_snoc.
Qed.

Lemma drain_nil (fuel : nat) (w : World) :
  drain (S fuel) {| registry := []; world := w |}
  = (Return tt, {| registry := []; world := w |}).
Proof. done. Qed.

(** Fuel beyond the length of the registry changes nothing. *)
Lemma drain_fuel (regs : list R) :
  ∀ (w : World) (fuel : nat),
    length regs < fuel →
    drain fuel {| registry := regs; world := w |}
    = drain (S (length regs)) {| registry := regs; world := w |}.
Proof.
  induction regs as [|x l IH] using rev_ind; intros w fuel Hfuel.
  - destruct fuel as [|fuel]; [cbn in Hfuel; lia|]. by rewrite !drain_nil.
  - destruct fuel as [|fuel]; [cbn in Hfuel; lia|].
    rewrite length_app, Nat.add_1_r in *. rewrite !drain_step.
    unfold bind, lift. cbn [world registry].
    destruct (close (resource_id x) w) as [[[]|e|] w']; [|done|done].
    apply IH. lia.
Qed.

(** What a drain does, in full: either every entry is closed, last one
    first, and the registry ends empty; or the first close that raises
    ends the loop, with the entries before the failing one still
    registered and never closed. *)
Lemma drain_spec (regs : list R) :
  ∀ (w : World) (fuel : nat),
    length regs < fuel →
    ∃ w',
      next_id w' = next_id w ∧
      ((drain fuel {| registry := regs; world := w |}
        = (Return tt, {| registry := []; world := w' |}) ∧
        trace w' = trace w ++ closes_ok (rev regs))
       ∨
       (∃ pre x post e,
          regs = pre ++ x :: post ∧
          drain fuel {| registry := regs; world := w |}
          = (Raise e, {| registry := pre; world := w' |}) ∧
          trace w' = trace w ++ closes_ok (rev post)
                       ++ [Close (resource_id x) (Some e)])).
Proof.
  induction regs as [|x l IH] using rev_ind; intros w fuel Hfuel.
  - destruct fuel as [|fuel]; [cbn in Hfuel; lia|].
    exists w. split; [done|]. left. split; [done|].
    cbn. by rewrite app_nil_r.
  - destruct fuel as [|fuel]; [cbn in Hfuel; lia|].
    rewrite length_app in Hfuel. cbn in Hfuel.
    rewrite drain_step. unfold bind, lift, close. cbn [world registry].
    destruct (close_outcome (trace w) (resource_id x)) as [e|] eqn:Eo.
    + exists {| next_id := next_id w;
                trace := trace w ++ [Close (resource_id x) (Some e)] |}.
      split; [done|]. right. by exists l, x, [], e.
    + set (w1 := {| next_id := next_id w;
                    trace := trace w ++ [Close (resource_id x) None] |}).
      destruct (IH w1 fuel ltac:(lia)) as (w' & Hid & Hcases).
      exists w'. split; [by rewrite Hid|].
      destruct Hcases as [[Hrun Htr] | (pre & y & post & e & Hl & Hrun & Htr)].
      * left. split; [done|].
        rewrite Htr, rev_app_distr. cbn. by rewrite <- app_assoc.
      * right. exists pre, y, (post ++ [x]), e.
        split; [by rewrite Hl, <- app_assoc|]. split; [done|].
        rewrite Htr, rev_app_distr. cbn. by rewrite <- !app_assoc.
Qed.
End Drain.

(** ** The factories, unfolded *)

Ltac unfold_py :=
  unfold bind, lift, ret, raise, assert_, append, emit, fresh,
    TestServer_new, RawTestServer_new, TestClient_new, start_server, call;
  cbn [registry world next_id trace fst snd].

Lemma test_server_go_mismatch `{Collaborators} loop app kwargs st :
  is_ (app_loop app) loop = false →
  test_server.go loop app kwargs st
  = (Raise (AssertionError "Application is attached to other event loop"), st).
Proof. intros E. unfold test_server.go. unfold_py. by rewrite E. Qed.

Lemma test_server_go_match `{Collaborators} loop app kwargs st :
  is_ (app_loop app) loop = true →
  let server := {| server_id := next_id (world st); server_app := app |} in
  let tr := trace (world st) ++ [NewTestServer server] in
  let o := start_server_outcome tr (server_id server) kwargs in
  let w' := {| next_id := S (next_id (world st));
               trace := tr ++ [StartServer (server_id server) kwargs o] |} in
  test_server.go loop app kwargs st
  = match o with
    | None => (Return server,
               {| registry := registry st ++ [server]; world := w' |})
    | Some e => (Raise e, {| registry := registry st; world := w' |})
    end.
Proof.
  intros E. unfold test_server.go. unfold_py. rewrite E. cbn.
  by destruct (start_server_outcome _ _ _).
Qed.

Lemma raw_test_server_go_eq `{Collaborators} loop handler kwargs st :
  let server := {| raw_id := next_id (world st); raw_handler := handler;
                   raw_loop := Some loop |} in
  let tr := trace (world st) ++ [NewRawTestServer server] in
  let o := start_server_outcome tr (raw_id server) kwargs in
  let w' := {| next_id := S (next_id (world st));
               trace := tr ++ [StartServer (raw_id server) kwargs o] |} in
  raw_test_server.go loop handler kwargs st
  = match o with
    | None => (Return server,
               {| registry := registry st ++ [server]; world := w' |})
    | Some e => (Raise e, {| registry := registry st; world := w' |})
    end.
Proof.
  unfold raw_test_server.go. unfold_py. cbn.
  by destruct (start_server_outcome _ _ _).
Qed.

(** The tail every branch of [test_client.go] ends with, once the client
    is constructed. *)
Lemma test_client_go_wrap `{Collaborators} (target : PyObj)
    (kw : gmap string PyObj) (regs : list TestClient) (w : World) :
  let client := {| client_id := next_id w; client_target := target;
                   client_kwargs := kw |} in
  let tr := trace w ++ [NewTestClient client] in
  let o := start_server_outcome tr (client_id client) ∅ in
  let w' := {| next_id := S (next_id w);
               trace := tr ++ [StartServer (client_id client) ∅ o] |} in
  (client <- lift (TestClient_new target kw) ;;
   lift (start_server (client_id client) ∅) ;;
   append client ;;
   ret client) {| registry := regs; world := w |}
  = match o with
    | None => (Return client, {| registry := regs ++ [client]; world := w' |})
    | Some e => (Raise e, {| registry := regs; world := w' |})
    end.
Proof. unfold_py. cbn. by destruct (start_server_outcome _ _ _). Qed.

(** ** Misuse of the factories *)

(** C9: the client factory called with a pre-built target (an Application,
    a TestServer or a RawTestServer) and at least one extra positional
    argument raises AssertionError("args should be empty") and leaves the
    fixture and the world as they were: no client is constructed, nothing
    is started, nothing is called, and this whatever loop the target is
    attached to. *)
Theorem client_prebuilt_with_args_rejected `{Collaborators}
    (loop : loop_id) (target : PyObj) (args : list PyObj)
    (kwargs : gmap string PyObj) (st : Fixture TestClient) :
  prebuilt target = true →
  args ≠ [] →
  test_client.go loop target args kwargs st
  = (Raise (AssertionError "args should be empty"), st).
Proof.
  intros Hpre Hargs. destruct args as [|a args]; [done|].
  destruct target; try discriminate; reflexivity.
Qed.

Lemma client_prebuilt_with_args_rejected_witness :
  test_client.go (H := all_ok) 1
    (PyApplication {| app_id := 2; app_loop := Some 1 |}) [PyInt 8080] ∅
    (new_fixture world0)
  = (Raise (AssertionError "args should be empty"), new_fixture world0).
Proof.
  apply (client_prebuilt_with_args_rejected (H := all_ok));
    [reflexivity | discriminate].
Defined.

(** C2, as stated, fails for the raw-handler factory: a handler attached to
    loop 2, given to the factory of a fixture whose loop is 1, gets a
    server that is constructed on loop 1 and started; nothing is raised. *)
Lemma raw_server_handler_loop_unchecked :
  let handler := {| handler_id := 3; handler_loop := Some 2 |} in
  let server :=
    {| raw_id := 10; raw_handler := handler; raw_loop := Some 1 |} in
  handler_loop handler ≠ Some 1 ∧
  raw_test_server.go (H := all_ok) 1 handler ∅ (new_fixture world0)
  = (Return server,
     {| registry := [server];
        world := {| next_id := 11;
                    trace := [NewRawTestServer server;
                              StartServer 10 ∅ None] |} |}).
Proof. split; [discriminate | reflexivity]. Qed.

(** C2, amended: the application-level factory, given an application whose
    loop is not the fixture's, raises AssertionError("Application is
    attached to other event loop") before any server is constructed or
    started (state unchanged).  The raw-handler factory makes no such
    check: whatever the handler, it constructs the server on the fixture's
    own loop and goes on to start it. *)
Theorem server_factory_loop_check `{Collaborators} (loop : loop_id) :
  (∀ app kwargs st,
     app_loop app ≠ Some loop →
     test_server.go loop app kwargs st
     = (Raise (AssertionError "Application is attached to other event loop"),
        st))
  ∧
  (∀ handler kwargs st,
     let server := {| raw_id := next_id (world st); raw_handler := handler;
                      raw_loop := Some loop |} in
     ∃ r st' o,
       raw_test_server.go loop handler kwargs st = (r, st') ∧
       trace (world st')
       = trace (world st)
           ++ [NewRawTestServer server; StartServer (raw_id server) kwargs o]).
Proof.
  split.
  - intros app kwargs st Hne. apply test_server_go_mismatch.
    unfold is_. destruct (app_loop app) as [l|]; [|done].
    apply Nat.eqb_neq. congruence.
  - intros handler kwargs st server.
    pose proof (raw_test_server_go_eq loop handler kwargs st) as E.
    cbn zeta in E. fold server in E.
    destruct (start_server_outcome _ _ _) as [e|] eqn:Eo;
      do 3 eexists; (split; [exact E|]); cbn [world trace];
      by rewrite <- app_assoc.
Qed.

Lemma server_factory_loop_check_witness :
  test_server.go (H := all_ok) 1 {| app_id := 2; app_loop := Some 3 |} ∅
    (new_fixture world0)
  = (Raise (AssertionError "Application is attached to other event loop"),
     new_fixture world0).
Proof.
  apply (proj1 (server_factory_loop_check (H := all_ok) 1)).
  discriminate.
Defined.

(** ** The client factory on a bare callable *)

(** C7: when the target of the client factory is a callable (none of the
    three pre-built forms), the factory calls it exactly once, with the
    fixture's loop as first positional argument followed by the given
    positional arguments, and with the given keyword arguments; what the
    callable returns is wrapped in a client (constructed without keyword
    arguments), which is then started.  If the callable raises, its error
    is the factory's and nothing else happens. *)
Theorem client_callable_called_once `{Collaborators}
    (loop : loop_id) (f : nat) (args : list PyObj)
    (kwargs : gmap string PyObj) (st : Fixture TestClient) :
  let o := call_outcome (trace (world st)) f (PyLoop loop :: args) kwargs in
  ∃ r st' evs,
    test_client.go loop (PyFunction f) args kwargs st = (r, st') ∧
    trace (world st') = trace (world st) ++ evs ∧
    calls_of evs = [(f, PyLoop loop :: args, kwargs)] ∧
    match o with
    | inl e =>
        r = Raise e ∧ registry st' = registry st ∧
        evs = [Call f (PyLoop loop :: args) kwargs o]
    | inr v =>
        let client := {| client_id := next_id (world st); client_target := v;
                         client_kwargs := ∅ |} in
        ∃ o',
          evs = [Call f (PyLoop loop :: args) kwargs o;
                 NewTestClient client;
                 StartServer (client_id client) ∅ o'] ∧
          r = match o' with None => Return client | Some e => Raise e end
    end.
Proof.
  intros o. destruct st as [regs w]. cbn [world] in o.
  unfold test_client.go. unfold bind at 1. unfold bind at 1.
  unfold lift at 1, call. cbn [world registry].
  change (call_outcome (trace w) f (PyLoop loop :: args) kwargs) with o.
  destruct o as [e|v].
  - do 3 eexists. split; [reflexivity|]. cbn [world trace registry].
    by split.
  - pose proof (test_client_go_wrap v ∅ regs
                  {| next_id := next_id w;
                     trace := trace w
                       ++ [Call f (PyLoop loop :: args) kwargs (inr v)] |})
      as E.
    cbn zeta in E. cbn [next_id trace] in E.
    unfold bind at 1 in E. rewrite E; clear E.
    destruct (start_server_outcome _ _ _) as [e|] eqn:Es;
      do 3 eexists; (split; [reflexivity|]); cbn [world trace];
      rewrite <- !app_assoc; (split; [reflexivity|]); cbn;
      (split; [reflexivity|]); eexists; (split; [reflexivity|]); done.
Qed.

(** ** One registry entry per started resource *)

Lemma snoc_snoc {A} (l : list A) (a b : A) : (l ++ [a]) ++ [b] = l ++ [a; b].
Proof. by rewrite <- app_assoc. Qed.

Lemma snoc_snoc_snoc {A} (l : list A) (a b c : A) :
  ((l ++ [a]) ++ [b]) ++ [c] = l ++ [a; b; c].
Proof. by rewrite <- !app_assoc. Qed.

Ltac solve_mem :=
  repeat match goal with
    | |- _ ∉ _ => intros ?
    | Hin : _ ∈ [] |- _ => by apply elem_of_nil in Hin
    | Hin : _ ∈ _ :: _ |- _ => apply elem_of_cons in Hin as [Hin|Hin]
    end;
  congruence.

Ltac solve_entry :=
  do 3 eexists; (split; [reflexivity|]); cbn [world trace registry];
  (split;
   [first [ symmetry; apply app_nil_r | apply snoc_snoc
          | apply snoc_snoc_snoc | reflexivity ]|]);
  repeat split; try (eexists; reflexivity);
  try (unfold resource_id; cbn; lia);
  intros; solve_mem.

Lemma test_client_go_entry `{Collaborators} loop target args kwargs :
  entry_iff_started (test_client.go loop target args kwargs).
Proof.
  intros [regs w]. unfold test_client.go.
  assert (Hwrap : ∀ tgt kw,
    ∃ r st' evs,
      (client <- lift (TestClient_new tgt kw) ;;
       lift (start_server (client_id client) ∅) ;;
       append client ;; ret client) {| registry := regs; world := w |}
      = (r, st') ∧
      trace (world st') = trace w ++ evs ∧
      match r with
      | Return x =>
          registry st' = regs ++ [x] ∧
          next_id w ≤ resource_id x < next_id (world st') ∧
          (∃ kw', last evs = Some (StartServer (resource_id x) kw' None)) ∧
          (∀ i kw' e', StartServer i kw' (Some e') ∉ evs)
      | Raise e =>
          registry st' = regs ∧
          next_id w ≤ next_id (world st') ∧
          (∀ i kw', StartServer i kw' None ∉ evs) ∧
          (∀ i kw' e', StartServer i kw' (Some e') ∈ evs → e' = e)
      | Diverge => False
      end).
  { intros tgt kw. rewrite test_client_go_wrap.
    destruct (start_server_outcome _ _ _) as [e|] eqn:Es; solve_entry. }
  destruct target as [ | z | str | l | app | srv | raw | f];
    try (unfold bind at 1; unfold bind at 1; unfold lift at 1, call, raise;
         cbn [world registry]; solve_entry).
  - (* Application *)
    destruct args as [|x args]; [|cbn; solve_entry].
    destruct (is_ (app_loop app) loop) eqn:El.
    + exact (Hwrap _ kwargs).
    + cbn. solve_entry.
  - (* TestServer *)
    destruct args as [|x args]; [|cbn; solve_entry].
    destruct (is_ (app_loop (server_app srv)) loop) eqn:El.
    + exact (Hwrap _ kwargs).
    + cbn. solve_entry.
  - (* RawTestServer *)
    destruct args as [|x args]; [|cbn; solve_entry].
    destruct (is_ (raw_loop raw) loop) eqn:El.
    + exact (Hwrap _ kwargs).
    + cbn. solve_entry.
  - (* a function *)
    unfold bind at 1. unfold bind at 1. unfold lift at 1, call.
    cbn [world registry].
    destruct (call_outcome _ _ _ _) as [e|v] eqn:Ec; [solve_entry|].
    match goal with
    | |- context [{| registry := regs; world := ?w1 |}] =>
        pose proof (test_client_go_wrap v ∅ regs w1) as E
    end.
    cbn zeta in E. cbn [next_id trace] in E.
    unfold bind at 1 in E. rewrite E; clear E.
    destruct (start_server_outcome _ _ _) as [e|] eqn:Es; solve_entry.
Qed.

Lemma test_server_go_entry `{Collaborators} loop app kwargs :
  entry_iff_started (test_server.go loop app kwargs).
Proof.
  intros st. destruct (is_ (app_loop app) loop) eqn:El.
  - rewrite (test_server_go_match _ _ _ _ El). cbn zeta.
    destruct (start_server_outcome _ _ _) as [e|]; solve_entry.
  - rewrite (test_server_go_mismatch _ _ _ _ El). solve_entry.
Qed.

Lemma raw_test_server_go_entry `{Collaborators} loop handler kwargs :
  entry_iff_started (raw_test_server.go loop handler kwargs).
Proof.
  intros st. rewrite raw_test_server_go_eq. cbn zeta.
  destruct (start_server_outcome _ _ _) as [e|]; solve_entry.
Qed.

(** C5: a factory call appends exactly one entry, the resource it returns,
    if and only if the resource's start succeeded; when the start raises,
    the call raises that same error and the registry is as before.  (A call
    refused before any start, by an assertion or by the callable, leaves
    the registry as before too.) *)
Theorem factory_entry_iff_started `{Collaborators} (loop : loop_id) :
  (∀ app kwargs, entry_iff_started (test_server.go loop app kwargs)) ∧
  (∀ handler kwargs,
     entry_iff_started (raw_test_server.go loop handler kwargs)) ∧
  (∀ target args kwargs,
     entry_iff_started (test_client.go loop target args kwargs)).
Proof.
  split; [|split].
  - apply test_server_go_entry.
  - apply raw_test_server_go_entry.
  - apply test_client_go_entry.
Qed.

(** ** A whole test: calls, then the drain *)

Lemma fixture_wf_new {R} `{Closable R} (w : World) :
  fixture_wf (new_fixture (R := R) w).
Proof. split; cbn; constructor. Qed.

Lemma fixture_wf_snoc {R} `{Closable R} (st st' : Fixture R) (x : R) :
  fixture_wf st →
  registry st' = registry st ++ [x] →
  next_id (world st) ≤ resource_id x < next_id (world st') →
  fixture_wf st'.
Proof.
  intros [Hnd Hlt] Hreg [Hge Hnew]. unfold fixture_wf. rewrite Hreg.
  split.
  - rewrite fmap_app. apply NoDup_app. split; [done|]. split.
    + intros i Hi Hx. cbn in Hx. apply list_elem_of_singleton in Hx. subst i.
      apply list_elem_of_fmap in Hi as (y & Hy & Hin).
      rewrite Forall_forall in Hlt. specialize (Hlt y Hin). lia.
    + cbn. apply NoDup_singleton.
  - apply Forall_app. split.
    + eapply Forall_impl; [exact Hlt|]. cbn. intros y Hy. lia.
    + by repeat constructor.
Qed.

Lemma fixture_wf_mono {R} `{Closable R} (st st' : Fixture R) :
  fixture_wf st →
  registry st' = registry st →
  next_id (world st) ≤ next_id (world st') →
  fixture_wf st'.
Proof.
  intros [Hnd Hlt] Hreg Hge. unfold fixture_wf. rewrite Hreg.
  split; [done|]. eapply Forall_impl; [exact Hlt|]. cbn. intros y Hy. lia.
Qed.

(** The registry grows by exactly the resources of the calls that
    returned, in call order, and stays well formed. *)
Lemma run_calls_registry {R} `{Closable R} (calls : list (M (Fixture R) R)) :
  Forall entry_iff_started calls →
  ∀ st rs st',
    run_calls calls st = (rs, st') →
    registry st' = registry st ++ successes rs ∧
    (fixture_wf st → fixture_wf st').
Proof.
  induction 1 as [|c calls Hc Hcs IH]; intros st rs st' Hrun.
  - cbn in Hrun. injection Hrun as <- <-. by rewrite app_nil_r.
  - cbn in Hrun.
    destruct (Hc st) as (r & st1 & evs & Hcall & Htr & Hr).
    rewrite Hcall in Hrun.
    destruct (run_calls calls st1) as [rs' st2] eqn:Hrest.
    injection Hrun as <- <-.
    destruct (IH _ _ _ Hrest) as [Hreg Hwf].
    destruct r as [x|e|]; [| |done].
    + destruct Hr as (Hr & Hid & _). cbn. rewrite Hreg, Hr.
      split; [by rewrite <- app_assoc|].
      intros Hst. apply Hwf. by eapply fixture_wf_snoc.
    + destruct Hr as (Hr & Hid & _). cbn. rewrite Hreg, Hr.
      split; [done|]. intros Hst. apply Hwf. by eapply fixture_wf_mono.
Qed.

Section WholeTest.
Context `{Collaborators} {R Args : Type} `{Closable R}.
Variable go : Args → M (Fixture R) R.
Hypothesis go_entry : ∀ a, entry_iff_started (go a).

Local Abbreviation finalize :=
  (fun st : Fixture R => drain (S (length (registry st))) st).

Lemma calls_entry (calls : list Args) :
  Forall entry_iff_started (go <$> calls).
Proof. apply Forall_fmap, Forall_forall. intros a _. apply go_entry. Qed.

Lemma whole_test_counts : counts_entries go finalize.
Proof.
  intros w calls rs st1 r st2 Hrun Hfin.
  destruct (run_calls_registry _ (calls_entry calls) _ _ _ Hrun) as [Hreg _].
  cbn in Hreg. split; [by rewrite Hreg|].
  destruct st1 as [regs w1]. cbn beta in Hfin. cbn [registry] in Hfin.
  destruct (drain_spec regs w1 (S (length regs)) ltac:(lia))
    as (w' & _ & [[Hd _] | (pre & x & post & e & _ & Hd & _)]);
    rewrite Hd in Hfin; injection Hfin as <- <-; split; done.
Qed.

Lemma whole_test_reverse : closes_in_reverse go finalize.
Proof.
  intros w calls rs st1 r st2 Hrun Hfin.
  destruct (run_calls_registry _ (calls_entry calls) _ _ _ Hrun) as [Hreg _].
  cbn in Hreg. split; [done|].
  destruct st1 as [regs w1]. cbn beta in Hfin.
  cbn [registry world] in *. subst regs.
  destruct (drain_spec (successes rs) w1 (S (length (successes rs)))
              ltac:(lia))
    as (w' & _ & [[Hd Htr] | (pre & x & post & e & Hl & Hd & Htr)]);
    rewrite Hd in Hfin; injection Hfin as <- <-; cbn [world].
  - eexists. split; [exact Htr|].
    rewrite closed_ids_closes_ok, fmap_rev. done.
  - eexists. split; [exact Htr|].
    rewrite closed_ids_app, closed_ids_closes_ok. cbn [closed_ids].
    split; [|done].
    rewrite Hl, fmap_app, fmap_cons, rev_app_distr. cbn [rev].
    rewrite <- fmap_rev. by apply prefix_app_r.
Qed.
End WholeTest.





(** ** The teardown drain *)

Section Teardown.
Context `{Collaborators} {R : Type} `{Closable R}.

Local Abbreviation finalize :=
  (fun st : Fixture R => drain (S (length (registry st))) st).

Lemma finalize_pops_before_closing : pops_before_closing finalize.
Proof.
  split.
  - intros l x w. cbn beta. cbn [registry].
    rewrite length_app, Nat.add_1_r, drain_step.
    unfold bind, lift. cbn [world registry].
    by destruct (close (resource_id x) w) as [[[]| |] w'].
  - intros [regs w] r st' Hfin. cbn beta in Hfin.
    cbn [registry world] in *.
    destruct (drain_spec regs w (S (length regs)) ltac:(lia))
      as (w' & _ & [[Hd Htr] | (pre & x & post & e & Hl & Hd & Htr)]);
      rewrite Hd in Hfin; injection Hfin as <- <-; cbn [world registry].
    + exists (closes_ok (rev regs)), [], regs.
      split; [done|]. split; [done|]. split; [done|].
      rewrite closed_ids_closes_ok, fmap_rev. split; [done|].
      split; [|done]. intros Hnd. by rewrite <- Permutation_rev.
    + exists (closes_ok (rev post) ++ [Close (resource_id x) (Some e)]),
        pre, (x :: post).
      split; [done|]. split; [done|]. split; [done|].
      rewrite closed_ids_app, closed_ids_closes_ok, fmap_rev. cbn.
      split; [done|]. split.
      * rewrite Hl, fmap_app. intros Hnd.
        apply NoDup_app in Hnd as (_ & _ & Hnd). cbn in Hnd.
        change (NoDup (rev (resource_id x :: (resource_id <$> post)))).
        by rewrite <- Permutation_rev.
      * exists x, post. split; [done|]. by rewrite last_snoc.
Qed.

Lemma finalize_close_failure : close_failure_ends_drain finalize.
Proof.
  intros [regs w] e st' Hfin. cbn beta in Hfin.
  cbn [registry world] in *.
  destruct (drain_spec regs w (S (length regs)) ltac:(lia))
    as (w' & _ & [[Hd Htr] | (pre & x & post & e' & Hl & Hd & Htr)]);
    rewrite Hd in Hfin; [discriminate|].
  injection Hfin as <- <-. by exists pre, x, post.
Qed.
End Teardown.

(** C10: in every teardown drain a resource is popped from the registry
    before its close is awaited (the close runs in a state that no longer
    registers it).  So the drain awaits close at most once per resource:
    what it closes is, last first, the entries it removed, without
    repetition when the registered resources are distinct.  And when a
    close raises, the registry at that moment holds exactly the resources
    created strictly before the one whose close failed. *)
Theorem drain_pops_before_closing `{Collaborators} :
  pops_before_closing test_server.finalize ∧
  pops_before_closing raw_test_server.finalize ∧
  pops_before_closing test_client.finalize.
Proof. repeat split; apply finalize_pops_before_closing. Qed.

Lemma drain_pops_before_closing_witness :
  let C := close_fails 11 5 in
  let st := snd (three_servers C) in
  let drained := test_server.finalize (H := C) st in
  ∃ evs kept closed,
    trace (world (snd drained)) = trace (world st) ++ evs ∧
    registry st = kept ++ closed ∧
    registry (snd drained) = kept ∧
    closed_ids evs = rev (resource_id <$> closed) ∧
    NoDup (closed_ids evs).
Proof.
  intros C st drained.
  destruct (proj2 (proj1 (drain_pops_before_closing (H := C)))
              st (fst drained) (snd drained) (surjective_pairing _))
    as (evs & kept & closed & Htr & Hreg & Hreg' & Hids & Hnd & _).
  exists evs, kept, closed. repeat (split; [assumption|]).
  apply Hnd.
  refine (proj1 (proj2 (run_calls_registry _ _ _ (fst (three_servers C)) st
                          (surjective_pairing _)) (fixture_wf_new _))).
  repeat constructor; apply test_server_go_entry.
Defined.




(** ** The execution hook *)

Section HookProperties.

Lemma dict_comprehension_pure fa names :
  ∀ acc w, ∃ r, dict_comprehension fa names acc w = (r, w) ∧ r ≠ Diverge.
Proof.
  induction names as [|arg names IH]; intros acc w; cbn.
  - by eexists.
  - destruct (fa !! arg) as [v|]; [apply IH|]. by eexists.
Qed.

(** With every name resolved, the comprehension returns the dict that
    maps each of the names to its value in [fa]. *)
Lemma dict_comprehension_resolved (fa : gmap string PyObj) names :
  Forall (λ arg, is_Some (fa !! arg)) names →
  ∀ (acc : gmap string PyObj) w,
  ∃ m : gmap string PyObj,
    dict_comprehension fa names acc w = (Return m, w) ∧
    ∀ k, m !! k = if decide (k ∈ names) then fa !! k else acc !! k.
Proof.
  induction 1 as [|arg names [v Hv] Hall IH]; intros acc w; cbn.
  - exists acc. split; [done|]. intros k.
    destruct (decide (k ∈ [])) as [Hin|]; [|done].
    by apply elem_of_nil in Hin.
  - rewrite Hv. destruct (IH (<[arg := v]> acc) w) as (m & Hrun & Hm).
    exists m. split; [done|]. intros k. rewrite Hm.
    destruct (decide (k ∈ names)) as [Hin|Hnin].
    + rewrite decide_True; [done|]. by apply list_elem_of_further.
    + destruct (decide (k = arg)) as [->|Hne].
      * rewrite decide_True; [|by apply list_elem_of_here].
        by rewrite lookup_insert_eq.
      * rewrite decide_False.
        -- by rewrite lookup_insert_ne.
        -- intros Hin. apply elem_of_cons in Hin as [?|?]; done.
  Qed.

(** Whatever happens in the [with] block, no loop is set up or torn
    down by it, and no identity is handed out. *)
Lemma with_body_events item _loop w :
  ∃ r w' evs,
    with_body item _loop w = (r, w') ∧
    next_id w' = next_id w ∧
    trace w' = trace w ++ evs ∧
    r ≠ Diverge ∧
    ∀ l, (SetupLoop l ∉ evs) ∧ (TeardownLoop l ∉ evs).
Proof.
  unfold with_body, bind.
  destruct (dict_comprehension_pure (funcargs item) (argnames item) ∅ w)
    as (r & -> & Hr).
  destruct r as [m|e|]; [| |done].
  - destruct _loop; cbn;
      try (exists (Raise (AttributeError "create_task")), w, [];
           rewrite app_nil_r; repeat split; try done; solve_mem).
    unfold run_until_complete.
    destruct (obj item m l (trace w)) as [e|];
      do 3 eexists; (split; [reflexivity|]); cbn;
      repeat split; try done; solve_mem.
  - exists (Raise e), w, []. rewrite app_nil_r.
    repeat split; try done; solve_mem.
Qed.

(** On a resolved item and a loop, the [with] block runs the test to its
    end on that loop, with the declared arguments. *)
Lemma with_body_runs item l w :
  resolved item →
  ∃ testargs : gmap string PyObj,
    (∀ k, testargs !! k
          = if decide (k ∈ argnames item) then funcargs item !! k
            else None) ∧
    let o := obj item testargs l (trace w) in
    with_body item (PyLoop l) w
    = (match o with None => Return tt | Some e => Raise e end,
       {| next_id := next_id w;
          trace := trace w ++ [RunTask l testargs o] |}).
Proof.
  intros Hres.
  destruct (dict_comprehension_resolved _ _ Hres ∅ w) as (m & Hrun & Hm).
  exists m. split.
  - intros k. rewrite Hm. by destruct (decide _).
  - unfold with_body, bind. rewrite Hrun. cbn. reflexivity.
Qed.
End HookProperties.

Section LoopContext.

Lemma passthrough_truthy {A} (loop : PyObj) (body : PyObj → M World A) :
  truthy loop = true →
  _passthrough_loop_context loop body = body loop.
Proof. intros E. unfold _passthrough_loop_context. by rewrite E. Qed.

Lemma passthrough_falsy {A} (loop : PyObj) (body : PyObj → M World A) w :
  truthy loop = false →
  let l := next_id w in
  let w1 := {| next_id := S l; trace := trace w ++ [SetupLoop l] |} in
  _passthrough_loop_context loop body w
  = match body (PyLoop l) w1 with
    | (Return a, w2) =>
        (Return a, {| next_id := next_id w2;
                      trace := trace w2 ++ [TeardownLoop l] |})
    | (Raise e, w2) => (Raise e, w2)
    | (Diverge, w2) => (Diverge, w2)
    end.
Proof.
  intros E. unfold _passthrough_loop_context. rewrite E.
  unfold setup_test_loop, teardown_test_loop, bind, fresh, emit, ret.
  cbn [next_id trace].
  by destruct (body _ _) as [[a|e|] w2].
Qed.

Lemma hook_not_coroutine item w :
  function_is_coroutine item = false →
  pytest_pyfunc_call item w = (Return None, w).
Proof. intros E. unfold pytest_pyfunc_call. by rewrite E. Qed.

Lemma hook_coroutine item w :
  function_is_coroutine item = true →
  pytest_pyfunc_call item w
  = match _passthrough_loop_context
            (default PyNone (funcargs item !! "loop")) (with_body item) w
    with
    | (Return _, w') => (Return (Some true), w')
    | (Raise e, w') => (Raise e, w')
    | (Diverge, w') => (Diverge, w')
    end.
Proof. intros E. unfold pytest_pyfunc_call. by rewrite E. Qed.
End LoopContext.

(** C6: a truthy loop handed to the pass-through context is yielded as it
    is, the very same object, and the context does nothing else: the block
    under it is all that runs.  So when the test's resolved arguments hold
    a truthy 'loop', the hook sets up no loop and tears none down.  In
    general the only loop the hook ever tears down is one the context set
    up itself, for want of a supplied one. *)
Theorem existing_loop_passed_through :
  (∀ A (loop : PyObj) (body : PyObj → M World A),
     truthy loop = true →
     _passthrough_loop_context loop body = body loop) ∧
  (∀ item v w,
     function_is_coroutine item = true →
     funcargs item !! "loop" = Some v →
     truthy v = true →
     ∃ r w' evs,
       pytest_pyfunc_call item w = (r, w') ∧
       trace w' = trace w ++ evs ∧
       next_id w' = next_id w ∧
       ∀ l, (SetupLoop l ∉ evs) ∧ (TeardownLoop l ∉ evs)) ∧
  (∀ item w,
     ∃ r w' evs,
       pytest_pyfunc_call item w = (r, w') ∧
       trace w' = trace w ++ evs ∧
       ∀ l, TeardownLoop l ∈ evs →
            truthy (default PyNone (funcargs item !! "loop")) = false ∧
            l = next_id w ∧
            head evs = Some (SetupLoop l)).
Proof.
  assert (Hsupplied : ∀ item w,
    function_is_coroutine item = true →
    truthy (default PyNone (funcargs item !! "loop")) = true →
    ∃ r w' evs,
      pytest_pyfunc_call item w = (r, w') ∧
      trace w' = trace w ++ evs ∧
      next_id w' = next_id w ∧
      ∀ l, (SetupLoop l ∉ evs) ∧ (TeardownLoop l ∉ evs)).
  { intros item w Hco Ht.
    rewrite (hook_coroutine _ _ Hco), (passthrough_truthy _ _ Ht).
    destruct (with_body_events item
                (default PyNone (funcargs item !! "loop")) w)
      as (r & w' & evs & -> & Hid & Htr & Hr & Hev).
    destruct r as [[]|e|]; [| |done]; by do 3 eexists. }
  split; [|split].
  - intros A loop body. apply passthrough_truthy.
  - intros item v w Hco Hv Ht. apply Hsupplied; [done|]. by rewrite Hv.
  - intros item w.
    destruct (function_is_coroutine item) eqn:Hco.
    + destruct (truthy (default PyNone (funcargs item !! "loop"))) eqn:Ht.
      * destruct (Hsupplied item w Hco Ht)
          as (r & w' & evs & Hrun & Htr & _ & Hev).
        exists r, w', evs. split; [done|]. split; [done|].
        intros l Hin. by destruct (proj2 (Hev l)).
      * rewrite (hook_coroutine _ _ Hco), (passthrough_falsy _ _ _ Ht).
        cbn zeta.
        match goal with
        | |- context [with_body item ?lp ?w1] =>
            destruct (with_body_events item lp w1)
              as (r & w2 & evs & -> & Hid & Htr & Hr & Hev)
        end.
        cbn [trace] in Htr.
        destruct r as [[]|e|]; [| |done].
        -- exists (Return (Some true)),
             {| next_id := next_id w2;
                trace := trace w2 ++ [TeardownLoop (next_id w)] |},
             (SetupLoop (next_id w) :: evs ++ [TeardownLoop (next_id w)]).
           split; [done|]. cbn [trace]. rewrite Htr.
           split; [by rewrite <- !app_assoc|].
           intros l Hin. split; [done|].
           apply elem_of_cons in Hin as [Hin|Hin]; [done|].
           apply elem_of_app in Hin as [Hin|Hin].
           ++ by destruct (proj2 (Hev l)).
           ++ apply list_elem_of_singleton in Hin. by injection Hin as ->.
        -- exists (Raise e), w2, (SetupLoop (next_id w) :: evs).
           split; [done|]. rewrite Htr.
           split; [by rewrite <- !app_assoc|].
           intros l Hin.
           apply elem_of_cons in Hin as [Hin|Hin]; [done|].
           by destruct (proj2 (Hev l)).
    + rewrite (hook_not_coroutine _ _ Hco).
      exists (Return None), w, []. rewrite app_nil_r.
      split; [done|]. split; [done|]. intros l Hin.
      by apply elem_of_nil in Hin.
Qed.

Lemma existing_loop_passed_through_witness :
  ∃ r w' evs,
    pytest_pyfunc_call test_with_loop world0 = (r, w') ∧
    trace w' = trace world0 ++ evs ∧
    next_id w' = next_id world0 ∧
    ∀ l, (SetupLoop l ∉ evs) ∧ (TeardownLoop l ∉ evs).
Proof.
  apply (proj1 (proj2 existing_loop_passed_through)
           test_with_loop (PyLoop 1) world0);
    reflexivity.
Defined.

(** C8: for a test item whose function is not a coroutine function the
    hook does nothing and returns None.  For one whose function is a
    coroutine function (the item resolved as the runner resolves it, its
    'loop' value, if any, a loop), the hook runs the test once, to its end,
    with the arguments it declares, on the supplied loop or else on a
    fresh one; if the test raises, the hook raises that exception, and
    otherwise it returns True. *)
Theorem coroutine_test_executed (item : PyFuncItem) (w : World) :
  (function_is_coroutine item = false →
   pytest_pyfunc_call item w = (Return None, w)) ∧
  (function_is_coroutine item = true →
   resolved item →
   loop_arg_is_loop item →
   ∃ (testargs : gmap string PyObj) w',
     (∀ k, testargs !! k
           = if decide (k ∈ argnames item) then funcargs item !! k
             else None) ∧
     let reused := truthy (default PyNone (funcargs item !! "loop")) in
     let l := active_loop item w in
     let tr := trace w ++ (if reused then [] else [SetupLoop l]) in
     let o := obj item testargs l tr in
     pytest_pyfunc_call item w
     = (match o with None => Return (Some true) | Some e => Raise e end, w') ∧
     trace w'
     = tr ++ RunTask l testargs o
          :: (if reused then []
              else match o with None => [TeardownLoop l] | Some _ => [] end)).
Proof.
  split; [apply hook_not_coroutine|].
  intros Hco Hres Hloop. rewrite (hook_coroutine _ _ Hco).
  destruct (truthy (default PyNone (funcargs item !! "loop"))) eqn:Ht.
  - assert (∃ l, default PyNone (funcargs item !! "loop") = PyLoop l)
      as [l Hl].
    { destruct (funcargs item !! "loop") as [v|] eqn:Hv; [|done].
      by apply Hloop. }
    assert (active_loop item w = l) as ->
      by (unfold active_loop; by rewrite Hl).
    rewrite (passthrough_truthy _ _ Ht), Hl.
    destruct (with_body_runs item l w Hres) as (testargs & Hargs & Hrun).
    cbn zeta in Hrun. rewrite Hrun.
    exists testargs. cbn zeta. rewrite app_nil_r.
    destruct (obj item testargs l (trace w));
      eexists; (split; [done|]); by split.
  - rewrite (passthrough_falsy _ _ _ Ht). cbn zeta.
    assert (active_loop item w = next_id w) as ->.
    { unfold active_loop.
      by destruct (default PyNone (funcargs item !! "loop")). }
    match goal with
    | |- context [with_body item (PyLoop ?l) ?w1] =>
        destruct (with_body_runs item l w1 Hres) as (testargs & Hargs & Hrun)
    end.
    cbn zeta in Hrun. cbn [trace next_id] in Hrun. rewrite Hrun.
    exists testargs. cbn zeta.
    destruct (obj item testargs (next_id w) _);
      eexists; (split; [done|]); (split; [reflexivity|]);
      cbn [trace]; by rewrite <- ?app_assoc.
Qed.

Lemma coroutine_test_executed_witness :
  ∃ (testargs : gmap string PyObj) w',
    testargs !! "port" = Some (PyInt 8080) ∧
    pytest_pyfunc_call test_without_loop world0
    = (Raise (AssertionError "status != 200"), w') ∧
    trace w'
    = [SetupLoop 10;
       RunTask 10 testargs (Some (AssertionError "status != 200"))].
Proof.
  destruct (proj2 (coroutine_test_executed test_without_loop world0))
    as (testargs & w' & Hargs & Hrun & Htr).
  - reflexivity.
  - repeat constructor. by eexists.
  - intros v Hv. discriminate Hv.
  - exists testargs, w'. split; [|split].
    + by rewrite Hargs.
    + exact Hrun.
    + exact Htr.
Defined.

(** * Further properties of the plugin *)

(** ** The client factory: loop checks and target kinds *)

Lemma is_true (a : option loop_id) (loop : loop_id) :
  is_ a loop = true ↔ a = Some loop.
Proof.
  unfold is_. destruct a as [l|]; [|done].
  rewrite Nat.eqb_eq. split; congruence.
Qed.

Lemma is_false (a : option loop_id) (loop : loop_id) :
  a ≠ Some loop → is_ a loop = false.
Proof.
  intros Hne. destruct (is_ a loop) eqn:E; [|done].
  by apply is_true in E.
Qed.

(** A pre-built target, given without positional arguments and attached
    to the fixture's loop, is wrapped as it is: the keyword arguments go to
    the client's constructor, the start is awaited without any option. *)
Lemma test_client_go_prebuilt `{Collaborators} loop target kwargs
    (st : Fixture TestClient) :
  prebuilt target = true →
  target_loop target = Some loop →
  let client := {| client_id := next_id (world st); client_target := target;
                   client_kwargs := kwargs |} in
  let tr := trace (world st) ++ [NewTestClient client] in
  let o := start_server_outcome tr (client_id client) ∅ in
  let w' := {| next_id := S (next_id (world st));
               trace := tr ++ [StartServer (client_id client) ∅ o] |} in
  test_client.go loop target [] kwargs st
  = match o with
    | None => (Return client,
               {| registry := registry st ++ [client]; world := w' |})
    | Some e => (Raise e, {| registry := registry st; world := w' |})
    end.
Proof.
  intros Hpre Hloop. apply is_true in Hloop. destruct st as [regs w].
  pose proof (test_client_go_wrap target kwargs regs w) as E.
  cbn zeta in *. cbn [world registry]. rewrite <- E. clear E.
  destruct target; try discriminate; cbn [target_loop] in Hloop;
    unfold test_client.go; cbn [test_client.not_];
    unfold bind at 1; unfold bind at 1; unfold bind at 1;
    unfold assert_ at 1; cbn [ret]; unfold bind at 1;
    rewrite Hloop; reflexivity.
Qed.

(** The loop check of each pre-built form, failing. *)
Lemma test_client_go_mismatch `{Collaborators}
    (loop : loop_id) (kwargs : gmap string PyObj)
    (st : Fixture TestClient) :
  (∀ a, app_loop a ≠ Some loop →
        test_client.go loop (PyApplication a) [] kwargs st
        = (Raise (AssertionError
                    "Application is attached to other event loop"), st)) ∧
  (∀ s, app_loop (server_app s) ≠ Some loop →
        test_client.go loop (PyTestServer s) [] kwargs st
        = (Raise (AssertionError
                    "TestServer is attached to other event loop"), st)) ∧
  (∀ r, raw_loop r ≠ Some loop →
        test_client.go loop (PyRawTestServer r) [] kwargs st
        = (Raise (AssertionError
                    "TestServer is attached to other event loop"), st)).
Proof.
  repeat split; intros x Hne; apply is_false in Hne;
    unfold test_client.go; cbn [test_client.not_];
    unfold bind at 1; unfold bind at 1; unfold bind at 1;
    unfold assert_ at 1; cbn [ret]; unfold bind at 1;
    by rewrite Hne.
Qed.

(** X1: the client factory, given a pre-built target (and no positional
    argument) that is attached to another loop than the fixture's, or to
    none, raises an AssertionError and leaves everything as it was: no
    client is built, nothing is started.  The message names the
    Application for an application and the TestServer for a server of
    either kind. *)
Theorem client_target_on_other_loop_rejected `{Collaborators}
    (loop : loop_id) (kwargs : gmap string PyObj)
    (st : Fixture TestClient) :
  (∀ a, app_loop a ≠ Some loop →
        test_client.go loop (PyApplication a) [] kwargs st
        = (Raise (AssertionError
                    "Application is attached to other event loop"), st)) ∧
  (∀ s, app_loop (server_app s) ≠ Some loop →
        test_client.go loop (PyTestServer s) [] kwargs st
        = (Raise (AssertionError
                    "TestServer is attached to other event loop"), st)) ∧
  (∀ r, raw_loop r ≠ Some loop →
        test_client.go loop (PyRawTestServer r) [] kwargs st
        = (Raise (AssertionError
                    "TestServer is attached to other event loop"), st)).
Proof. apply test_client_go_mismatch. Qed.

Lemma client_target_on_other_loop_rejected_witness :
  test_client.go (H := all_ok) 1
    (PyRawTestServer
       {| raw_id := 4;
          raw_handler := {| handler_id := 5; handler_loop := None |};
          raw_loop := None |}) [] ∅ (new_fixture world0)
  = (Raise (AssertionError "TestServer is attached to other event loop"),
     new_fixture world0).
Proof.
  apply (proj2 (proj2 (client_target_on_other_loop_rejected
                         (H := all_ok) 1 ∅ (new_fixture world0)))).
  discriminate.
Defined.



(** ** The factories composed *)

(** What the server factory returns is attached to the fixture's loop. *)
Lemma test_server_go_returns `{Collaborators} loop app kw st server st' :
  test_server.go loop app kw st = (Return server, st') →
  server = {| server_id := next_id (world st); server_app := app |} ∧
  app_loop app = Some loop.
Proof.
  intros Hgo. destruct (is_ (app_loop app) loop) eqn:El.
  - rewrite (test_server_go_match _ _ _ _ El) in Hgo. cbn zeta in Hgo.
    destruct (start_server_outcome _ _ _); [discriminate|].
    injection Hgo as <- _. split; [done|]. by apply is_true.
  - by rewrite (test_server_go_mismatch _ _ _ _ El) in Hgo.
Qed.

Lemma raw_test_server_go_returns `{Collaborators} loop handler kw st
    server st' :
  raw_test_server.go loop handler kw st = (Return server, st') →
  server = {| raw_id := next_id (world st); raw_handler := handler;
              raw_loop := Some loop |}.
Proof.
  intros Hgo. rewrite raw_test_server_go_eq in Hgo. cbn zeta in Hgo.
  destruct (start_server_outcome _ _ _); [discriminate|].
  by injection Hgo as <- _.
Qed.

(** X3: a server returned by the [test_server] factory of a fixture on
    [loop] can be handed to the client factory of a fixture on [loop']:
    when the loops are the same, the client factory builds a client around
    that very server, with the given keyword arguments, and starts it (the
    call returns the client, or raises what the start raised); when they
    differ, it raises the TestServer assertion and does nothing. *)
Theorem server_accepted_by_client_on_same_loop `{Collaborators}
    (loop loop' : loop_id) (app : Application) (kw : gmap string PyObj)
    (st st' : Fixture TestServer) (server : TestServer)
    (kwargs : gmap string PyObj) (stc : Fixture TestClient) :
  test_server.go loop app kw st = (Return server, st') →
  (loop' = loop →
   let client := {| client_id := next_id (world stc);
                    client_target := PyTestServer server;
                    client_kwargs := kwargs |} in
   ∃ o stc',
     test_client.go loop' (PyTestServer server) [] kwargs stc
     = (match o with None => Return client | Some e => Raise e end, stc') ∧
     trace (world stc')
     = trace (world stc)
         ++ [NewTestClient client; StartServer (client_id client) ∅ o]) ∧
  (loop' ≠ loop →
   test_client.go loop' (PyTestServer server) [] kwargs stc
   = (Raise (AssertionError "TestServer is attached to other event loop"),
      stc)).
Proof.
  intros Hgo. apply test_server_go_returns in Hgo as [-> Happ]. split.
  - intros -> client.
    rewrite test_client_go_prebuilt by done. cbn zeta.
    destruct (start_server_outcome _ _ _) as [e|] eqn:Eo.
    + exists (Some e). eexists. split; [reflexivity|].
      cbn [world trace]. apply snoc_snoc.
    + exists None. eexists. split; [reflexivity|].
      cbn [world trace]. apply snoc_snoc.
  - intros Hne.
    apply (proj1 (proj2 (test_client_go_mismatch loop' kwargs stc))).
    cbn. rewrite Happ. congruence.
Qed.

Lemma server_accepted_by_client_on_same_loop_witness :
  let app := {| app_id := 2; app_loop := Some 1 |} in
  let server := {| server_id := 10; server_app := app |} in
  test_client.go (H := all_ok) 7 (PyTestServer server) [] ∅
    (new_fixture world0)
  = (Raise (AssertionError "TestServer is attached to other event loop"),
     new_fixture world0).
Proof.
  intros app server.
  refine (proj2 (server_accepted_by_client_on_same_loop (H := all_ok)
                   1 7 app ∅ (new_fixture world0) _ server ∅
                   (new_fixture world0) _) _).
  - reflexivity.
  - discriminate.
Defined.

(** X4: a server returned by the [raw_test_server] factory of a fixture on
    [loop], whatever its handler, is accepted by the client factory of a
    fixture on that same loop, which builds a client around that very
    server and starts it; the client factory of a fixture on another loop
    raises the TestServer assertion and does nothing. *)
Theorem raw_server_accepted_by_client_on_same_loop `{Collaborators}
    (loop loop' : loop_id) (handler : Handler) (kw : gmap string PyObj)
    (st st' : Fixture RawTestServer) (server : RawTestServer)
    (kwargs : gmap string PyObj) (stc : Fixture TestClient) :
  raw_test_server.go loop handler kw st = (Return server, st') →
  (loop' = loop →
   let client := {| client_id := next_id (world stc);
                    client_target := PyRawTestServer server;
                    client_kwargs := kwargs |} in
   ∃ o stc',
     test_client.go loop' (PyRawTestServer server) [] kwargs stc
     = (match o with None => Return client | Some e => Raise e end, stc') ∧
     trace (world stc')
     = trace (world stc)
         ++ [NewTestClient client; StartServer (client_id client) ∅ o]) ∧
  (loop' ≠ loop →
   test_client.go loop' (PyRawTestServer server) [] kwargs stc
   = (Raise (AssertionError "TestServer is attached to other event loop"),
      stc)).
Proof.
  intros Hgo. apply raw_test_server_go_returns in Hgo as ->. split.
  - intros -> client.
    rewrite test_client_go_prebuilt by done. cbn zeta.
    destruct (start_server_outcome _ _ _) as [e|] eqn:Eo.
    + exists (Some e). eexists. split; [reflexivity|].
      cbn [world trace]. apply snoc_snoc.
    + exists None. eexists. split; [reflexivity|].
      cbn [world trace]. apply snoc_snoc.
  - intros Hne.
    apply (proj2 (proj2 (test_client_go_mismatch loop' kwargs stc))).
    cbn. congruence.
Qed.

Lemma raw_server_accepted_by_client_on_same_loop_witness :
  let handler := {| handler_id := 3; handler_loop := Some 2 |} in
  let server := {| raw_id := 10; raw_handler := handler;
                   raw_loop := Some 1 |} in
  let client := {| client_id := 10; client_target := PyRawTestServer server;
                   client_kwargs := ∅ |} in
  ∃ o stc',
    test_client.go (H := all_ok) 1 (PyRawTestServer server) [] ∅
      (new_fixture world0)
    = (match o with None => Return client | Some e => Raise e end, stc') ∧
    trace (world stc')
    = trace world0 ++ [NewTestClient client; StartServer 10 ∅ o].
Proof.
  intros handler server client.
  refine (proj1 (raw_server_accepted_by_client_on_same_loop (H := all_ok)
                   1 1 handler ∅ (new_fixture world0) _ server ∅
                   (new_fixture world0) _) _).
  - reflexivity.
  - reflexivity.
Defined.

(** ** The execution hook at its edges *)

Lemma dict_comprehension_missing (fa : gmap string PyObj) pre k post :
  Forall (λ arg, is_Some (fa !! arg)) pre →
  fa !! k = None →
  ∀ (acc : gmap string PyObj) w,
    dict_comprehension fa (pre ++ k :: post) acc w = (Raise (KeyError k), w).
Proof.
  induction 1 as [|arg pre [v Hv] Hall IH]; intros Hk acc w; cbn.
  - by rewrite Hk.
  - rewrite Hv. by apply IH.
Qed.



(** X6: when a name the test function declares has no resolved value, the
    hook raises KeyError for the first such name.  The test is not run;
    and if the hook had set up a loop for it, that loop is not torn
    down. *)
Theorem unresolved_argument_raises_KeyError (item : PyFuncItem) (w : World)
    (pre : list string) (k : string) (post : list string) :
  function_is_coroutine item = true →
  argnames item = pre ++ k :: post →
  Forall (λ arg, is_Some (funcargs item !! arg)) pre →
  funcargs item !! k = None →
  pytest_pyfunc_call item w
  = (Raise (KeyError k),
     if truthy (default PyNone (funcargs item !! "loop")) then w
     else {| next_id := S (next_id w);
             trace := trace w ++ [SetupLoop (next_id w)] |}).
Proof.
  intros Hco Hnames Hpre Hk. rewrite (hook_coroutine _ _ Hco).
  assert (Hbody : ∀ lp w1,
            with_body item lp w1 = (Raise (KeyError k), w1)).
  { intros lp w1. unfold with_body, bind.
    by rewrite Hnames, (dict_comprehension_missing _ _ _ _ Hpre Hk). }
  destruct (truthy (default PyNone (funcargs item !! "loop"))) eqn:Ht.
  - by rewrite (passthrough_truthy _ _ Ht), Hbody.
  - rewrite (passthrough_falsy _ _ _ Ht). cbn zeta. by rewrite Hbody.
Qed.

Lemma unresolved_argument_raises_KeyError_witness :
  pytest_pyfunc_call test_unresolved world0
  = (Raise (KeyError "client"),
     {| next_id := 11; trace := [SetupLoop 10] |}).
Proof.
  apply (unresolved_argument_raises_KeyError test_unresolved world0
           ["port"] "client" []).
  - reflexivity.
  - reflexivity.
  - repeat constructor. by eexists.
  - reflexivity.
Defined.

(** X7: when the resolved 'loop' value is truthy but is not an event loop,
    the hook passes it through as the loop and fails on it: it raises
    AttributeError for [create_task]; the test is not run and nothing
    else happens. *)
Theorem truthy_non_loop_raises_AttributeError (item : PyFuncItem)
    (w : World) (v : PyObj) :
  function_is_coroutine item = true →
  resolved item →
  funcargs item !! "loop" = Some v →
  truthy v = true →
  (∀ l, v ≠ PyLoop l) →
  pytest_pyfunc_call item w = (Raise (AttributeError "create_task"), w).
Proof.
  intros Hco Hres Hv Ht Hnl. rewrite (hook_coroutine _ _ Hco), Hv.
  cbn [default]. rewrite (passthrough_truthy _ _ Ht).
  destruct (dict_comprehension_resolved _ _ Hres ∅ w) as (m & Hrun & _).
  unfold with_body, bind. rewrite Hrun.
  destruct v; try done. by destruct (Hnl l).
Qed.

Lemma truthy_non_loop_raises_AttributeError_witness :
  pytest_pyfunc_call test_with_bad_loop world0
  = (Raise (AttributeError "create_task"), world0).
Proof.
  apply (truthy_non_loop_raises_AttributeError test_with_bad_loop world0
           (PyStr "uvloop")).
  - reflexivity.
  - repeat constructor. by eexists.
  - reflexivity.
  - reflexivity.
  - discriminate.
Defined.

(** ** The two hooks together *)

(** X8: the collection hook and the execution hook agree.  Whenever the
    collection hook takes an object over (returns a list of items), the
    object is a coroutine function and its name passes the collector's
    filter, the items are those the collector generates for it, and, the
    generated items being items of that function, the execution hook
    handles each of them: it never declines (returns None) an item the
    collection hook produced. *)
Theorem collected_items_are_handled {Obj} (iscoroutinefunction : Obj → bool)
    (collector : Collector Obj PyFuncItem) (name : string) (obj : Obj)
    (items : list PyFuncItem) :
  (∀ item, item ∈ _genfunctions collector name obj →
           function_is_coroutine item = iscoroutinefunction obj) →
  pytest_pycollect_makeitem iscoroutinefunction collector name obj
  = Some items →
  funcnamefilter collector name = true ∧
  iscoroutinefunction obj = true ∧
  items = _genfunctions collector name obj ∧
  ∀ item w, item ∈ items → fst (pytest_pyfunc_call item w) ≠ Return None.
Proof.
  intros Hgen Hmake. unfold pytest_pycollect_makeitem in Hmake.
  destruct (funcnamefilter collector name) eqn:Hf; [|done].
  destruct (iscoroutinefunction obj) eqn:Hc; [|done].
  injection Hmake as <-. repeat split.
  intros item w Hin. rewrite (hook_coroutine _ _ (Hgen _ Hin)).
  by destruct (_passthrough_loop_context _ _ _) as [[[]|e|] w'].
Qed.

Lemma collected_items_are_handled_witness :
  let f := {| func_id := 20; func_is_coroutine := true |} in
  ∃ items,
    pytest_pycollect_makeitem func_is_coroutine plain_collector
      "test_hello" f = Some items ∧
    length items = 1 ∧
    ∀ item w, item ∈ items → fst (pytest_pyfunc_call item w) ≠ Return None.
Proof.
  intros f. eexists. split; [reflexivity|]. split; [reflexivity|].
  refine (proj2 (proj2 (proj2
    (collected_items_are_handled func_is_coroutine plain_collector
       "test_hello" f _ _ eq_refl)))).
  intros item Hin. apply list_elem_of_singleton in Hin. by subst item.
Defined.

(** ** More on the teardown drain *)

Section TeardownMore.
Context `{Collaborators} {R : Type} `{Closable R}.

Local Abbreviation finalize :=
  (fun st : Fixture R => drain (S (length (registry st))) st).

Lemma drain_all_ok (regs : list R) :
  ∀ (w : World) (fuel : nat),
    length regs < fuel →
    (∀ tr r, r ∈ regs → close_outcome tr (resource_id r) = None) →
    drain fuel {| registry := regs; world := w |}
    = (Return tt,
       {| registry := [];
          world := {| next_id := next_id w;
                      trace := trace w ++ closes_ok (rev regs) |} |}).
Proof.
  induction regs as [|x l IH] using rev_ind; intros w fuel Hfuel Hok.
  - destruct fuel as [|fuel]; [cbn in Hfuel; lia|].
    rewrite drain_nil. cbn. rewrite app_nil_r. by destruct w.
  - destruct fuel as [|fuel]; [cbn in Hfuel; lia|].
    rewrite length_app, Nat.add_1_r in Hfuel.
    rewrite drain_step. unfold bind, lift, close. cbn [world registry].
    rewrite Hok by (apply elem_of_app; right; apply list_elem_of_here).
    rewrite IH.
    + cbn [next_id trace]. rewrite rev_app_distr. cbn.
      by rewrite <- app_assoc.
    + lia.
    + intros tr r Hr. apply Hok. apply elem_of_app. by left.
Qed.

Lemma finalize_drains_fully : drains_fully finalize.
Proof.
  intros [regs w] Hok. cbn [registry world] in *.
  by apply drain_all_ok; [lia|].
Qed.

Lemma closes_ok_all_close (rs : list R) :
  Forall (λ e, is_close e = true) (closes_ok rs).
Proof. induction rs; by constructor. Qed.

Lemma finalize_only_closes : only_closes finalize.
Proof.
  intros [regs w] r st' Hfin. cbn beta in Hfin. cbn [registry world] in *.
  destruct (drain_spec regs w (S (length regs)) ltac:(lia))
    as (w' & Hid & [[Hd Htr] | (pre & x & post & e & Hl & Hd & Htr)]);
    rewrite Hd in Hfin; injection Hfin as <- <-; cbn [world registry];
    (split; [done|]); eexists; (split; [exact Htr|]); split.
  - apply closes_ok_all_close.
  - unfold closes_ok. by rewrite length_fmap, length_rev.
  - apply Forall_app. split; [apply closes_ok_all_close|by constructor].
  - unfold closes_ok.
    rewrite Hl, !length_app, length_fmap, length_rev. cbn. lia.
Qed.
End TeardownMore.

(** X9: when the close of every registered resource succeeds, the drain of
    each fixture completes: it returns normally, having closed every
    registered resource once, last registered first, and leaves the
    registry empty. *)
Theorem teardown_completes_when_closes_succeed `{Collaborators} :
  drains_fully test_server.finalize ∧
  drains_fully raw_test_server.finalize ∧
  drains_fully test_client.finalize.
Proof. split; [|split]; apply finalize_drains_fully. Qed.

Lemma teardown_completes_when_closes_succeed_witness :
  let st := snd (three_servers all_ok) in
  fst (test_server.finalize (H := all_ok) st) = Return tt ∧
  registry (snd (test_server.finalize (H := all_ok) st)) = [] ∧
  closed_ids (trace (world (snd (test_server.finalize (H := all_ok) st))))
  = [12; 11; 10].
Proof.
  intros st.
  rewrite (proj1 (teardown_completes_when_closes_succeed (H := all_ok)) st)
    by reflexivity.
  by vm_compute.
Defined.

(** X10: a teardown drain does nothing but close.  Whether it completes or
    is ended by a close that raises, it makes no new object, and the
    events it adds are all closes, exactly one for each entry it removed
    from the registry. *)
Theorem teardown_only_closes `{Collaborators} :
  only_closes test_server.finalize ∧
  only_closes raw_test_server.finalize ∧
  only_closes test_client.finalize.
Proof. split; [|split]; apply finalize_only_closes. Qed.

Lemma teardown_only_closes_witness :
  let C := close_fails 11 5 in
  let st := snd (three_servers C) in
  let drained := test_server.finalize (H := C) st in
  next_id (world (snd drained)) = next_id (world st) ∧
  ∃ evs,
    trace (world (snd drained)) = trace (world st) ++ evs ∧
    Forall (λ e, is_close e = true) evs ∧
    length (registry (snd drained)) + length evs = length (registry st).
Proof.
  intros C st drained.
  exact (proj1 (teardown_only_closes (H := C)) st (fst drained)
           (snd drained) (surjective_pairing _)).
Defined.

(** ** More on a whole test *)

Lemma run_calls_lower_bound {R} `{Closable R}
    (calls : list (M (Fixture R) R)) (n : nat) :
  Forall entry_iff_started calls →
  ∀ st rs st',
    run_calls calls st = (rs, st') →
    n ≤ next_id (world st) →
    Forall (λ r, n ≤ resource_id r) (registry st) →
    n ≤ next_id (world st') ∧
    Forall (λ r, n ≤ resource_id r) (registry st').
Proof.
  induction 1 as [|c calls Hc Hcs IH]; intros st rs st' Hrun Hn Hreg.
  - cbn in Hrun. by injection Hrun as <- <-.
  - cbn in Hrun.
    destruct (Hc st) as (r & st1 & evs & Hcall & Htr & Hr).
    rewrite Hcall in Hrun.
    destruct (run_calls calls st1) as [rs' st2] eqn:Hrest.
    injection Hrun as <- <-.
    destruct r as [x|e|]; [| |done].
    + destruct Hr as (Hr & Hid & _).
      apply (IH _ _ _ Hrest); [lia|]. rewrite Hr.
      apply Forall_app. split; [done|]. repeat constructor. lia.
    + destruct Hr as (Hr & Hid & _).
      apply (IH _ _ _ Hrest); [lia|]. by rewrite Hr.
Qed.

Section WholeTestMore.
Context `{Collaborators} {R Args : Type} `{Closable R}.
Variable go : Args → M (Fixture R) R.
Hypothesis go_entry : ∀ a, entry_iff_started (go a).

Lemma whole_test_distinct : registers_distinct go.
Proof.
  intros w calls rs st1 Hrun.
  pose proof (calls_entry go go_entry calls) as Hcalls.
  destruct (run_calls_registry _ Hcalls _ _ _ Hrun) as [_ Hwf].
  destruct (Hwf (fixture_wf_new w)) as [Hnd Hlt].
  destruct (run_calls_lower_bound _ (next_id w) Hcalls _ _ _ Hrun)
    as [_ Hge]; [done|by constructor|].
  split; [done|].
  rewrite Forall_forall in *. intros r Hr.
  specialize (Hlt r Hr). specialize (Hge r Hr). lia.
Qed.
End WholeTestMore.

(** X11: over a whole test, whatever calls are made to a factory, the
    resources in its registry are pairwise distinct objects, each made
    during the test: two calls with the same application or target never
    register the same resource twice. *)
Theorem registered_resources_distinct `{Collaborators} (loop : loop_id) :
  registers_distinct (λ '(app, kwargs), test_server.go loop app kwargs) ∧
  registers_distinct
    (λ '(handler, kwargs), raw_test_server.go loop handler kwargs) ∧
  registers_distinct
    (λ '(target, args, kwargs), test_client.go loop target args kwargs).
Proof.
  split; [|split].
  - apply whole_test_distinct. intros [app kwargs].
    apply test_server_go_entry.
  - apply whole_test_distinct. intros [handler kwargs].
    apply raw_test_server_go_entry.
  - apply whole_test_distinct. intros [[target args] kwargs].
    apply test_client_go_entry.
Qed.

Lemma registered_resources_distinct_witness :
  let app := {| app_id := 2; app_loop := Some 1 |} in
  let calls := [(app, ∅ : gmap string PyObj); (app, ∅); (app, ∅)] in
  let test :=
    run_calls ((λ '(app, kwargs), test_server.go (H := all_ok) 1 app kwargs)
               <$> calls) (new_fixture world0) in
  length (registry (snd test)) = 3 ∧
  NoDup (server_id <$> registry (snd test)).
Proof.
  intros app calls test. split; [reflexivity|].
  exact (proj1 (proj1 (registered_resources_distinct (H := all_ok) 1)
                  world0 calls (fst test) (snd test)
                  (surjective_pairing _))).
Defined.

(** ** Resources that failed to start *)

Lemma failed_starts_app (e1 e2 : list Event) :
  failed_starts (e1 ++ e2) = failed_starts e1 ++ failed_starts e2.
Proof.
  induction e1 as [|e e1 IH]; [done|].
  destruct e as [| | |i kw [x|]| | | | |]; cbn; by rewrite ?IH.
Qed.

Lemma failed_starts_closes_ok {R} `{Closable R} (rs : list R) :
  failed_starts (closes_ok rs) = [].
Proof. induction rs as [|r rs IH]; [done|]. exact IH. Qed.

Ltac solve_shape :=
  do 3 eexists; (split; [reflexivity|]); cbn [world trace registry];
  (split;
   [first [ symmetry; apply app_nil_r | apply snoc_snoc
          | apply snoc_snoc_snoc | reflexivity ]|]);
  unfold resource_id; cbn;
  repeat split; try lia; repeat constructor; cbn; lia.

Lemma test_server_go_shape `{Collaborators} loop app kwargs :
  closes_nothing_starts_new (test_server.go loop app kwargs).
Proof.
  intros st. destruct (is_ (app_loop app) loop) eqn:El.
  - rewrite (test_server_go_match _ _ _ _ El). cbn zeta.
    destruct (start_server_outcome _ _ _) as [e|]; solve_shape.
  - rewrite (test_server_go_mismatch _ _ _ _ El). solve_shape.
Qed.

Lemma raw_test_server_go_shape `{Collaborators} loop handler kwargs :
  closes_nothing_starts_new (raw_test_server.go loop handler kwargs).
Proof.
  intros st. rewrite raw_test_server_go_eq. cbn zeta.
  destruct (start_server_outcome _ _ _) as [e|]; solve_shape.
Qed.

Lemma test_client_go_shape `{Collaborators} loop target args kwargs :
  closes_nothing_starts_new (test_client.go loop target args kwargs).
Proof.
  intros st.
  destruct (prebuilt target) eqn:Hpre.
  - destruct args as [|x args].
    + destruct (is_ (target_loop target) loop) eqn:El.
      * apply is_true in El.
        rewrite (test_client_go_prebuilt _ _ _ _ Hpre El). cbn zeta.
        destruct (start_server_outcome _ _ _) as [e|]; solve_shape.
      * assert (target_loop target ≠ Some loop) as Hne.
        { intros E. apply is_true in E. congruence. }
        destruct (test_client_go_mismatch loop kwargs st)
          as (Happ & Hsrv & Hraw).
        destruct target; try discriminate; cbn [target_loop] in Hne.
        -- rewrite (Happ _ Hne). solve_shape.
        -- rewrite (Hsrv _ Hne). solve_shape.
        -- rewrite (Hraw _ Hne). solve_shape.
    + assert (test_client.go loop target (x :: args) kwargs st
              = (Raise (AssertionError "args should be empty"), st)) as ->.
      { by destruct target. }
      solve_shape.
  - destruct st as [regs w].
    destruct target as [ | z | str | l | app | srv | raw | f];
      try discriminate;
      try (unfold test_client.go; unfold bind at 1; unfold bind at 1;
           unfold lift at 1, call, raise; cbn [world registry];
           solve_shape).
    unfold test_client.go. unfold bind at 1. unfold bind at 1.
    unfold lift at 1, call. cbn [world registry].
    destruct (call_outcome _ _ _ _) as [e|v] eqn:Ec; [solve_shape|].
    match goal with
    | |- context [{| registry := regs; world := ?w1 |}] =>
        pose proof (test_client_go_wrap v ∅ regs w1) as E
    end.
    cbn zeta in E. cbn [next_id trace] in E.
    unfold bind at 1 in E. rewrite E; clear E.
    destruct (start_server_outcome _ _ _) as [e|] eqn:Es; solve_shape.
Qed.

(** Over any run of calls: nothing is closed, and the resources whose
    start raised are new objects that are not registered. *)
Lemma run_calls_failed_starts {R} `{Closable R}
    (calls : list (M (Fixture R) R)) :
  Forall closes_nothing_starts_new calls →
  ∀ st rs st',
    run_calls calls st = (rs, st') →
    Forall (λ r, resource_id r < next_id (world st)) (registry st) →
    ∃ evs added,
      trace (world st') = trace (world st) ++ evs ∧
      closed_ids evs = [] ∧
      next_id (world st) ≤ next_id (world st') ∧
      registry st' = registry st ++ added ∧
      Forall (λ r, next_id (world st) ≤ resource_id r < next_id (world st'))
        added ∧
      Forall (λ i, next_id (world st) ≤ i < next_id (world st'))
        (failed_starts evs) ∧
      ∀ i, i ∈ failed_starts evs → i ∉ resource_id <$> registry st'.
Proof.
  induction 1 as [|c calls Hc Hcs IH]; intros st rs st' Hrun Hlt.
  - cbn in Hrun. injection Hrun as <- <-. exists [], [].
    rewrite !app_nil_r. repeat split; try done; try by constructor.
    intros i Hi. by apply elem_of_nil in Hi.
  - cbn in Hrun.
    destruct (Hc st) as (r & st1 & evs1 & Hcall & Htr1 & Hcl1 & Hn1 & Hf1 & Hr).
    rewrite Hcall in Hrun.
    destruct (run_calls calls st1) as [rs' st2] eqn:Hrest.
    injection Hrun as <- <-.
    assert (Hlt1 : Forall (λ r, resource_id r < next_id (world st1))
                     (registry st1)).
    { destruct r as [x|e|]; [| |done].
      - destruct Hr as (Hreg & Hx & _). rewrite Hreg.
        apply Forall_app. split.
        + eapply Forall_impl; [exact Hlt|]. cbn. intros; lia.
        + repeat constructor. lia.
      - rewrite Hr. eapply Forall_impl; [exact Hlt|]. cbn. intros; lia. }
    destruct (IH _ _ _ Hrest Hlt1)
      as (evs2 & added & Htr2 & Hcl2 & Hn2 & Hreg2 & Hadd & Hf2 & Hnot).
    assert (Hnew : ∃ new,
              registry st1 = registry st ++ new ∧
              Forall (λ r, next_id (world st) ≤ resource_id r
                           < next_id (world st1)) new ∧
              (failed_starts evs1 ≠ [] → new = [])).
    { destruct r as [x|e|]; [| |done].
      - destruct Hr as (Hreg & Hx & Hnone). exists [x].
        split; [done|]. split; [constructor; [exact Hx|constructor]|].
        by rewrite Hnone.
      - exists []. rewrite app_nil_r. split; [done|]. by split. }
    destruct Hnew as (new & Hreg1 & Hnewb & Hnone).
    exists (evs1 ++ evs2), (new ++ added).
    split; [by rewrite Htr2, Htr1, app_assoc|].
    split; [by rewrite closed_ids_app, Hcl1, Hcl2|].
    split; [lia|].
    split; [by rewrite Hreg2, Hreg1, app_assoc|].
    split.
    { apply Forall_app. split.
      - eapply Forall_impl; [exact Hnewb|]. cbn. intros; lia.
      - eapply Forall_impl; [exact Hadd|]. cbn. intros; lia. }
    rewrite failed_starts_app. split.
    { apply Forall_app. split.
      - eapply Forall_impl; [exact Hf1|]. cbn. intros; lia.
      - eapply Forall_impl; [exact Hf2|]. cbn. intros; lia. }
    intros i Hi. apply elem_of_app in Hi as [Hi|Hi]; [|by apply Hnot].
    assert (failed_starts evs1 ≠ []) as Hne.
    { intros E. rewrite E in Hi. by apply elem_of_nil in Hi. }
    rewrite (Hnone Hne), app_nil_r in Hreg1.
    rewrite Forall_forall in Hf1. specialize (Hf1 i Hi).
    rewrite Hreg2, Hreg1, fmap_app. intros Hin.
    apply elem_of_app in Hin as [Hin|Hin];
      apply list_elem_of_fmap in Hin as (y & -> & Hy).
    + rewrite Forall_forall in Hlt. specialize (Hlt y Hy). lia.
    + rewrite Forall_forall in Hadd. specialize (Hadd y Hy). lia.
Qed.

Section FailedStarts.
Context `{Collaborators} {R Args : Type} `{Closable R}.
Variable go : Args → M (Fixture R) R.
Hypothesis go_shape : ∀ a, closes_nothing_starts_new (go a).

Local Abbreviation finalize :=
  (fun st : Fixture R => drain (S (length (registry st))) st).

Lemma whole_test_abandons : abandons_failed_starts go finalize.
Proof.
  intros w calls rs st1 r st2 Hrun Hfin.
  assert (Hcalls : Forall closes_nothing_starts_new (go <$> calls)).
  { apply Forall_fmap, Forall_forall. intros a _. apply go_shape. }
  destruct (run_calls_failed_starts _ Hcalls _ _ _ Hrun)
    as (evs1 & added & Htr1 & Hcl1 & _ & _ & _ & _ & Hnot);
    [by constructor|].
  destruct st1 as [regs w1]. cbn beta in Hfin. cbn [registry world] in *.
  destruct (drain_spec regs w1 (S (length regs)) ltac:(lia))
    as (w' & _ & [[Hd Htr] | (pre & x & post & e & Hl & Hd & Htr)]);
    rewrite Hd in Hfin; injection Hfin as <- <-; cbn [world].
  - exists evs1, (closes_ok (rev regs)).
    split; [done|]. split; [done|]. split; [done|].
    split; [apply failed_starts_closes_ok|].
    intros i Hi. split; [by apply Hnot|].
    rewrite closed_ids_closes_ok, fmap_rev.
    intros Hin. apply (Hnot i Hi).
    apply list_elem_of_In, in_rev, list_elem_of_In. exact Hin.
  - exists evs1, (closes_ok (rev post) ++ [Close (resource_id x) (Some e)]).
    split; [done|]. split; [done|]. split; [done|].
    split; [by rewrite failed_starts_app, failed_starts_closes_ok|].
    intros i Hi. split; [by apply Hnot|].
    rewrite closed_ids_app, closed_ids_closes_ok, fmap_rev. cbn.
    intros Hin. apply (Hnot i Hi). rewrite Hl, fmap_app, fmap_cons.
    apply elem_of_app. right.
    apply elem_of_app in Hin as [Hin|Hin].
    + apply list_elem_of_further.
      apply list_elem_of_In, in_rev, list_elem_of_In. exact Hin.
    + apply list_elem_of_singleton in Hin as ->. apply list_elem_of_here.
Qed.
End FailedStarts.


